(** * Natural-disaster dashboard (streamlit_app.py): model and properties

    The program is a Streamlit script: one cached HTTP fetch of the NASA
    EONET event list, a pandas pipeline that flattens the events into a
    table with derived columns, and widgets that filter and draw the
    table.  This file embeds the script in Rocq and proves the properties
    of the fetch / normalise / filter pipeline.

    Conventions of the embedding.
    - A JSON object of the upstream schema is a record whose fields are
      [option]s: [None] is a key that is absent from the Python dict
      (for a table cell: the NaN that pandas puts there).
    - Python exceptions are the [Raise] results of the [result] monad.
    - JSON numbers (coordinates) are rationals; they are only passed
      through, and no floating-point arithmetic is computed on them.
    - pandas, Streamlit and folium are library code: what the script
      needs of them is modelled from the specification, each model under
      a comment that says so and names what it leaves out.
    - DataFrame objects that the script aliases and mutates live in an
      explicit heap. *)

From Stdlib Require Import ZArith QArith Ascii String.
From stdpp Require Import base option list gmap strings sorting pretty.

Set Warnings "-clear-no-such-hyp".
Close Scope Q_scope.
Local Open Scope string_scope.
Local Open Scope list_scope.
Local Open Scope Z_scope.

(** ** Python exceptions *)

Inductive exn : Type :=
| KeyError (labels : list string)   (* dict[key] / df[[cols]] on missing labels *)
| IndexError                        (* list[i] out of range *)
| TypeError                         (* e.g. subscripting a float NaN cell *)
| ValueError (text : string).       (* pd.to_datetime on an unparseable string *)

Inductive result (A : Type) : Type :=
| Ok (a : A)
| Raise (e : exn).
Arguments Ok {A} a.
Arguments Raise {A} e.

#[global] Instance result_ret : MRet result := λ A a, Ok a.
#[global] Instance result_bind : MBind result := λ A B f m,
  match m with
  | Ok a => f a
  | Raise e => Raise e
  end.

(** [Series.apply(f)]: [f] on every cell, top to bottom; the first
    exception aborts the whole column. *)
Fixpoint apply {A B : Type} (f : A → result B) (col : list A) : result (list B) :=
  match col with
  | [] => Ok []
  | x :: col' => y ← f x; ys ← apply f col'; Ok (y :: ys)
  end.

(** ** Data model: the upstream JSON *)

(** An entry of an event's ["categories"] list. *)
Record Category : Type := { cat_title : option string }.

(** An entry of an event's ["geometry"] list: a date string and a
    [longitude, latitude] coordinate list.  [g_date = None] stands for a
    missing ["date"] key or a JSON null ([.get] gives [None] for both);
    [g_coordinates = None] for a missing ["coordinates"] key.  These
    records are the schema of the specification's RawEvent with optional
    keys: a geometry list with a null entry, a ["coordinates"] key with a
    null value and coordinates that are not numbers have no value here,
    and what the script does on them is outside the model. *)
Record GeometrySample : Type := {
  g_date : option string;
  g_coordinates : option (list Q);
}.

(** One element of the ["events"] array. *)
Record RawEvent : Type := {
  ev_id : option string;
  ev_title : option string;
  ev_categories : option (list Category);
  ev_geometry : option (list GeometrySample);
}.

(** Python's [d[key]] on a dict whose key may be absent. *)
Definition getitem {A : Type} (key : string) (field : option A) : result A :=
  match field with
  | Some v => Ok v
  | None => Raise (KeyError [key])
  end.

(** Python's [d.get(key, dflt)]. *)
Definition get {A : Type} (field : option A) (dflt : A) : A :=
  match field with
  | Some v => v
  | None => dflt
  end.

(** Python's [l[i]] on a list, for a non-negative index. *)
Definition index {A : Type} (l : list A) (i : nat) : result A :=
  match l !! i with
  | Some v => Ok v
  | None => Raise IndexError
  end.

(** ** Timestamps *)

Record Timestamp : Type := {
  ts_year : Z;
  ts_month : Z;
  ts_day : Z;
  ts_hour : Z;
  ts_minute : Z;
  ts_second : Z;
  ts_utcoffset : Z;   (* minutes east of UTC *)
}.

Definition digit (c : ascii) : option Z :=
  let n := Z.of_N (N_of_ascii c) in
  if (48 <=? n) && (n <=? 57) then Some (n - 48) else None.

Fixpoint number (acc : Z) (cs : list ascii) : option Z :=
  match cs with
  | [] => Some acc
  | c :: cs' => d ← digit c; number (10 * acc + d) cs'
  end.

Definition is_leap (y : Z) : bool :=
  ((y mod 4 =? 0) && negb (y mod 100 =? 0)) || (y mod 400 =? 0).

Definition days_in_month (y m : Z) : Z :=
  if m =? 2 then (if is_leap y then 29 else 28)
  else if (m =? 4) || (m =? 6) || (m =? 9) || (m =? 11) then 30
  else 31.

(** The zone designator after the seconds: [Z], [+HH:MM] or [-HH:MM],
    optionally preceded by a fraction of a second. *)
Fixpoint skip_digits (cs : list ascii) : list ascii :=
  match cs with
  | c :: cs' => if digit c is Some _ then skip_digits cs' else cs
  | [] => []
  end.

Definition zone (cs : list ascii) : option Z :=
  match cs with
  | ["Z"%char] => Some 0
  | sign :: h1 :: h2 :: ":"%char :: m1 :: m2 :: [] =>
      h ← number 0 [h1; h2];
      m ← number 0 [m1; m2];
      if (h <? 24) && (m <? 60) then
        if Ascii.eqb sign "+" then Some (60 * h + m)
        else if Ascii.eqb sign "-" then Some (- (60 * h + m))
        else None
      else None
  | _ => None
  end.

Definition fraction_and_zone (cs : list ascii) : option Z :=
  match cs with
  | "."%char :: d :: rest =>
      if digit d is Some _ then zone (skip_digits rest) else None
  | _ => zone cs
  end.

(** Modelled from the spec: the element parser of [pd.to_datetime] is
    pandas library code and is not part of the repository.  Following the
    specification it accepts ISO-8601 full date-times
    [YYYY-MM-DDTHH:MM:SS[.f]] with a [Z] suffix or a [+HH:MM] / [-HH:MM]
    offset, and keeps the offset of the string. *)
Definition parse_iso8601 (s : string) : option Timestamp :=
  match list_ascii_of_string s with
  | y1 :: y2 :: y3 :: y4 :: "-"%char :: mo1 :: mo2 :: "-"%char :: d1 :: d2 ::
    "T"%char :: h1 :: h2 :: ":"%char :: mi1 :: mi2 :: ":"%char :: s1 :: s2 :: rest =>
      y ← number 0 [y1; y2; y3; y4];
      mo ← number 0 [mo1; mo2];
      d ← number 0 [d1; d2];
      h ← number 0 [h1; h2];
      mi ← number 0 [mi1; mi2];
      sec ← number 0 [s1; s2];
      off ← fraction_and_zone rest;
      if (1 <=? mo) && (mo <=? 12) && (1 <=? d) && (d <=? days_in_month y mo)
         && (h <? 24) && (mi <? 60) && (sec <? 60)
      then Some {| ts_year := y; ts_month := mo; ts_day := d; ts_hour := h;
                   ts_minute := mi; ts_second := sec; ts_utcoffset := off |}
      else None
  | _ => None
  end.

(** ** Table Builder (lines 51-66) *)

(** [pd.json_normalize(events_data)]: one row per event, one column per
    key that occurs in some event; a row that lacks the key holds NaN
    there.  A column therefore exists iff some event has the key. *)
Definition has_column {A : Type} (key : RawEvent → option A) (events : list RawEvent) : bool :=
  existsb (λ e, bool_decide (is_Some (key e))) events.

Definition missing_columns (events : list RawEvent) : list string :=
  (if has_column ev_id events then [] else ["id"]) ++
  (if has_column ev_title events then [] else ["title"]) ++
  (if has_column ev_categories events then [] else ["categories"]) ++
  (if has_column ev_geometry events then [] else ["geometry"]).

(** [df[['id', 'title', 'categories', 'geometry']]]: pandas raises
    KeyError when a listed column does not exist. *)
Definition select_columns (events : list RawEvent) : result (list RawEvent) :=
  match missing_columns events with
  | [] => Ok events
  | labels => Raise (KeyError labels)
  end.

(** [lambda x: x[0]['title'] if x else 'N/A'].  A NaN cell is a float,
    which is truthy and not subscriptable. *)
Definition category_of (x : option (list Category)) : result string :=
  match x with
  | None => Raise TypeError
  | Some [] => Ok "N/A"
  | Some (c :: _) => getitem "title" (cat_title c)
  end.

(** [lambda geoms: geoms[0].get('date') if geoms else None] *)
Definition date_of (geoms : option (list GeometrySample)) : result (option string) :=
  match geoms with
  | None => Raise TypeError
  | Some [] => Ok None
  | Some (g :: _) => Ok (g_date g)
  end.

(** [lambda geoms: geoms[0]['coordinates'][i]
       if geoms and len(geoms[0].get('coordinates', [])) > i else None],
    with [i = 1] for the latitude and [i = 0] for the longitude. *)
Definition coordinate_of (i : nat) (geoms : option (list GeometrySample)) : result (option Q) :=
  match geoms with
  | None => Raise TypeError
  | Some [] => Ok None
  | Some (g :: _) =>
      if bool_decide (i < length (get (g_coordinates g) []))%nat then
        coords ← getitem "coordinates" (g_coordinates g);
        v ← index coords i;
        Ok (Some v)
      else Ok None
  end.

Definition latitude_of := coordinate_of 1.
Definition longitude_of := coordinate_of 0.

(** The frame after line 61: the four selected columns (the event) and
    the four derived ones, whose cells may be null. *)
Record Extracted : Type := {
  x_event : RawEvent;
  x_category : string;
  x_date : option string;
  x_latitude : option Q;
  x_longitude : option Q;
}.

Fixpoint assemble (events : list RawEvent) (category : list string)
    (date : list (option string)) (latitude longitude : list (option Q)) : list Extracted :=
  match events, category, date, latitude, longitude with
  | e :: events', c :: category', d :: date', la :: latitude', lo :: longitude' =>
      {| x_event := e; x_category := c; x_date := d; x_latitude := la; x_longitude := lo |}
      :: assemble events' category' date' latitude' longitude'
  | _, _, _, _, _ => []
  end.

(** Lines 55-61: the derived columns are computed one column at a time. *)
Definition extract (df : list RawEvent) : result (list Extracted) :=
  category ← apply category_of (ev_categories <$> df);
  date ← apply date_of (ev_geometry <$> df);
  latitude ← apply latitude_of (ev_geometry <$> df);
  longitude ← apply longitude_of (ev_geometry <$> df);
  Ok (assemble df category date latitude longitude).

(** The frame after [dropna]: the three cells are known to be present. *)
Record Clean : Type := {
  c_event : RawEvent;
  c_category : string;
  c_date : string;
  c_latitude : Q;
  c_longitude : Q;
}.

Definition notna (x : Extracted) : option Clean :=
  match x_latitude x, x_longitude x, x_date x with
  | Some la, Some lo, Some d =>
      Some {| c_event := x_event x; c_category := x_category x; c_date := d;
              c_latitude := la; c_longitude := lo |}
  | _, _, _ => None
  end.

(** [df.dropna(subset=['latitude', 'longitude', 'date'], inplace=True)] *)
Definition dropna (df : list Extracted) : list Clean := omap notna df.

(** A row of the normalised table ([df] after line 66). *)
Record Row : Type := {
  row_event : RawEvent;      (* columns id, title, categories, geometry *)
  category : string;
  date : Timestamp;
  latitude : Q;
  longitude : Q;
  year : Z;
}.

Section TableBuilder.

(** The element parser of [pd.to_datetime]. *)
Variable parse : string → option Timestamp.

(** Modelled from the spec: [pd.to_datetime(df['date'])], with the
    default [errors='raise'], is pandas library code and is not part of
    the repository.  Following the specification (section 4.2, step 4)
    every date string of the column is parsed on its own by the element
    parser, and a string that does not parse raises ValueError for the
    whole column.  What pandas does with the column as a whole is left
    out: it also raises when the strings of a column parse one by one but
    differ in layout or in UTC offset, and it turns the empty string into
    a null timestamp without raising.  A result [Ok] of this model
    therefore says that every date parses, not that pandas accepts the
    column. *)
Definition to_datetime (col : list string) : result (list Timestamp) :=
  apply (λ s, match parse s with
              | Some t => Ok t
              | None => Raise (ValueError s)
              end) col.

Definition with_date (c : Clean) (t : Timestamp) : Row :=
  {| row_event := c_event c; category := c_category c; date := t;
     latitude := c_latitude c; longitude := c_longitude c;
     year := ts_year t (* df['date'].dt.year *) |}.

(** Lines 51-66. *)
Definition normalize (events_data : list RawEvent) : result (list Row) :=
  df ← select_columns events_data;
  df ← extract df;
  let df := dropna df in
  date ← to_datetime (c_date <$> df);
  Ok (zip_with with_date df date).

End TableBuilder.

(** ** Selection controls and filtering (lines 68-133) *)

(** [Series.unique()]: the distinct values in order of first appearance. *)
Fixpoint unique_from {A : Type} `{EqDecision A} (seen col : list A) : list A :=
  match col with
  | [] => []
  | x :: col' =>
      if decide (x ∈ seen) then unique_from seen col'
      else x :: unique_from (x :: seen) col'
  end.

Definition unique {A : Type} `{EqDecision A} (col : list A) : list A :=
  unique_from [] col.

(** Python compares [str] values by code point, which on the UTF-8 bytes
    of a Rocq string is the lexicographic order of [String.compare]. *)
Definition str_le (a b : string) : Prop := String.leb a b = true.
Definition str_lt (a b : string) : Prop := String.ltb a b = true.

#[global] Instance str_le_dec : RelDecision str_le.
Proof. intros a b. unfold str_le. apply _. Defined.

(** Line 75: [sorted(df['year'].unique(), reverse=True)].  [sorted] is a
    stable merge sort; [reverse=True] sorts as if every comparison were
    reversed. *)
Definition available_years (df : list Row) : list Z :=
  merge_sort Z.ge (unique (year <$> df)).

(** Line 82: [sorted(df['category'].unique())] *)
Definition all_categories (df : list Row) : list string :=
  merge_sort str_le (unique (category <$> df)).

(** What the two sidebar widgets return: [st.selectbox] gives one of its
    options, or [None] when it has no options; [st.multiselect] gives a
    list of options. *)
Record Selection : Type := {
  selected_year : option Z;
  selected_categories : list string;
}.

(** [df['year'] == selected_year]: a boolean column. *)
Definition year_eq (df : list Row) (y : option Z) : list bool :=
  (λ r, bool_decide (Some (year r) = y)) <$> df.

(** [df['category'].isin(selected_categories)]: a boolean column. *)
Definition isin (col : list string) (values : list string) : list bool :=
  (λ c, bool_decide (c ∈ values)) <$> col.

(** [a & b] on boolean columns. *)
Definition mask_and (a b : list bool) : list bool := zip_with andb a b.

(** [df[mask]]: the rows whose mask entry is [True], as a new frame. *)
Fixpoint boolean_index {A : Type} (rows : list A) (mask : list bool) : list A :=
  match rows, mask with
  | r :: rows', b :: mask' =>
      if b then r :: boolean_index rows' mask' else boolean_index rows' mask'
  | _, _ => []
  end.

(** A DataFrame object: the normalised columns and, once line 105 has
    run on it, the extra column [date_str]. *)
Record Frame : Type := {
  frame_rows : list Row;
  frame_date_str : option (list string);
}.

Definition empty_frame : Frame := {| frame_rows := []; frame_date_str := None |}.

Definition two_digits (n : Z) : string :=
  String (ascii_of_N (Z.to_N (48 + (n / 10) mod 10)))
    (String (ascii_of_N (Z.to_N (48 + n mod 10))) "").

(** Line 105, [Series.dt.strftime('%Y-%m-%d')]: pandas prints the year
    of the column with four digits. *)
Definition strftime_Ymd (t : Timestamp) : string :=
  two_digits (ts_year t / 100) +:+ two_digits (ts_year t) +:+ "-" +:+
  two_digits (ts_month t) +:+ "-" +:+ two_digits (ts_day t).

Definition one_digit (n : Z) : string :=
  String (ascii_of_N (Z.to_N (48 + n mod 10))) "".

(** The [%Y] of the C library: the year in decimal, without padding. *)
Definition year_unpadded (y : Z) : string :=
  if y <? 10 then one_digit y
  else if y <? 100 then two_digits y
  else if y <? 1000 then one_digit (y / 100) +:+ two_digits y
  else two_digits (y / 100) +:+ two_digits y.

(** Line 120, [Timestamp.strftime('%Y-%m-%d')] on one row: the scalar
    method goes through the C library, which does not pad a year below
    1000. *)
Definition timestamp_strftime_Ymd (t : Timestamp) : string :=
  year_unpadded (ts_year t) +:+ "-" +:+
  two_digits (ts_month t) +:+ "-" +:+ two_digits (ts_day t).

(** One line of the table shown by [st.dataframe] (line 106). *)
Record TableLine : Type := {
  tl_title : option string;
  tl_category : string;
  tl_date_str : string;
  tl_latitude : Q;
  tl_longitude : Q;
}.

(** One [folium.Marker] (lines 116-127). *)
Record Marker : Type := {
  mk_location : Q * Q;
  mk_title : option string;
  mk_category : string;
  mk_date : string;
}.

(** Line 112: [[filtered_df['latitude'].mean(),
    filtered_df['longitude'].mean()]].  The two means are floating-point
    sums and divisions, which the model does not compute: the centre of
    the map is recorded by the two columns whose means it is. *)
Record MapCenter : Type := {
  mean_of_latitude : list Q;
  mean_of_longitude : list Q;
}.

Inductive Message : Type :=
| FetchFailed (cause : string)   (* line 42: the request failed, with its cause *)
| LoadFailed.                    (* line 136: "could not load the data, retry later" *)

(** What the script puts on the page, in order. *)
Inductive Element : Type :=
| st_title
| st_markdown
| st_error (msg : Message)
| st_success (count : nat)
| st_sidebar_header
| st_selectbox (options : list Z)
| st_multiselect (options default : list string)
| st_header (y : option Z) (categories : list string)
| st_metric (count : nat)
| st_dataframe (lines : list TableLine)
| st_subheader
| folium_static (center : MapCenter) (markers : list Marker)
| st_warning.                    (* line 133: nothing matches the selection *)

(** The interpreter state of the filtering part: the heap of DataFrame
    objects and the page drawn so far. *)
Record State : Type := {
  heap : gmap positive Frame;
  page : list Element;
}.

Definition Script (A : Type) : Type := State → A * State.

#[global] Instance script_ret : MRet Script := λ A a s, (a, s).
#[global] Instance script_bind : MBind Script := λ A B f m s,
  let (a, s') := m s in f a s'.

(** A new object at an address that is not in use. *)
Definition alloc (f : Frame) : Script positive := λ s,
  let l := fresh (dom (heap s)) in
  (l, {| heap := <[l := f]> (heap s); page := page s |}).

(** The names of the script always refer to objects that exist. *)
Definition load (l : positive) : Script Frame := λ s,
  (default empty_frame (heap s !! l), s).

Definition store (l : positive) (f : Frame) : Script unit := λ s,
  (tt, {| heap := <[l := f]> (heap s); page := page s |}).

Definition emit (e : Element) : Script unit := λ s,
  (tt, {| heap := heap s; page := page s ++ [e] |}).

(** [frame[mask]] allocates the selected rows as a new object. *)
Definition getitem_mask (l : positive) (mask : list bool) : Script positive :=
  f ← load l;
  alloc {| frame_rows := boolean_index (frame_rows f) mask;
           frame_date_str := (λ col, boolean_index col mask) <$> frame_date_str f |}.

(** [frame.copy()] *)
Definition copy (l : positive) : Script positive :=
  f ← load l; alloc f.

(** [frame['date_str'] = col] mutates the object in place. *)
Definition setitem_date_str (l : positive) (col : list string) : Script unit :=
  f ← load l;
  store l {| frame_rows := frame_rows f; frame_date_str := Some col |}.

Definition table_line (r : Row) (s : string) : TableLine :=
  {| tl_title := ev_title (row_event r); tl_category := category r;
     tl_date_str := s; tl_latitude := latitude r; tl_longitude := longitude r |}.

Definition marker (r : Row) : Marker :=
  {| mk_location := (latitude r, longitude r); mk_title := ev_title (row_event r);
     mk_category := category r; mk_date := timestamp_strftime_Ymd (date r) |}.

(** Lines 68-133, on the DataFrame object [df].  Modelled from the
    spec: the Streamlit and folium calls are library code; each call is
    modelled as drawing one element from its arguments.  Failures inside
    the library (for instance [st.dataframe] refusing a table that it
    cannot serialise) are left out, so the model says what the script
    asks to be drawn, not that the library draws it. *)
Definition filter_and_render (df : positive) (sel : Selection) : Script unit :=
  base ← load df;
  emit (st_success (length (frame_rows base)));;
  emit st_sidebar_header;;
  emit (st_selectbox (available_years (frame_rows base)));;
  emit (st_multiselect (all_categories (frame_rows base)) (all_categories (frame_rows base)));;
  let mask := mask_and (year_eq (frame_rows base) (selected_year sel))
                       (isin (category <$> frame_rows base) (selected_categories sel)) in
  selected ← getitem_mask df mask;
  filtered_df ← copy selected;
  emit (st_header (selected_year sel) (selected_categories sel));;
  view ← load filtered_df;
  if bool_decide (frame_rows view ≠ []) then
    emit (st_metric (length (frame_rows view)));;
    setitem_date_str filtered_df (strftime_Ymd ∘ date <$> frame_rows view);;
    view ← load filtered_df;
    emit (st_dataframe (zip_with table_line (frame_rows view)
                          (default [] (frame_date_str view))));;
    emit st_subheader;;
    emit (folium_static {| mean_of_latitude := latitude <$> frame_rows view;
                           mean_of_longitude := longitude <$> frame_rows view |}
                        (marker <$> frame_rows view))
  else
    emit st_warning.

(** The filtered view as a value: the rows of the object that
    [filtered_df] names after line 93. *)
Definition filtered_rows (df : list Row) (sel : Selection) : list Row :=
  boolean_index df
    (mask_and (year_eq df (selected_year sel))
              (isin (category <$> df) (selected_categories sel))).

(** Running a script from state [s] ends in a result and a state that
    satisfy [Q]. *)
Definition wp {A : Type} (m : Script A) (Q : A → State → Prop) (s : State) : Prop :=
  Q (m s).1 (m s).2.

(** ** Event Fetcher (lines 29-46) *)

(** What [requests.get] followed by [raise_for_status] and [.json()]
    comes to: a [RequestException] with its cause, or the decoded JSON
    object, whose ["events"] key may be absent. *)
Inductive Response : Type :=
| RequestException (cause : string)
| JsonBody (events : option (list RawEvent)).

(** Line 35 *)
Definition api_url (days : Z) : string :=
  "https://eonet.gsfc.nasa.gov/api/v3/events?days=" +:+ pretty days +:+ "&status=closed".

(** What a call of the function yields: its return value ([None] is
    Python's [None]) and the elements it put on the page. *)
Record Fetched : Type := {
  returned : option (list RawEvent);
  shown : list Element;
}.

(** Lines 36-43, given the outcome of the request. *)
Definition get_eonet_data_body (resp : Response) : Fetched :=
  match resp with
  | JsonBody events => {| returned := Some (get events []); shown := [] |}
  | RequestException cause =>
      {| returned := None; shown := [st_error (FetchFailed cause)] |}
  end.

(** The process-wide state of the fetcher: the requests sent upstream so
    far and the cache of the decorated function, which maps the call
    parameter to an expiry time and the cached outcome. *)
Record Fetcher : Type := {
  requests : list string;
  cache : gmap Z (Z * Fetched);
}.

Definition ttl : Z := 3600.

Section EventFetcher.

(** The upstream service: the response to the [n]-th request of the
    process, sent to the given URL. *)
Variable upstream : nat → string → Response.

(** The undecorated function: one request per call. *)
Definition get_eonet_data_uncached (days : Z) (w : Fetcher) : Fetched * Fetcher :=
  let url := api_url days in
  (get_eonet_data_body (upstream (length (requests w)) url),
   {| requests := requests w ++ [url]; cache := cache w |}).

(** Modelled from the spec: [st.cache_data(ttl=3600)] is Streamlit
    library code and is not part of the repository.  Results are cached
    per call parameter with a time-to-live of 3600 seconds: a call at
    time [now] that finds an entry that has not expired returns it (and
    replays its elements) without calling the function; otherwise it
    calls the function and stores the outcome, to expire at
    [now + ttl]. *)
Definition get_eonet_data (days : Z) (now : Z) (w : Fetcher) : Fetched * Fetcher :=
  match cache w !! days with
  | Some (expires, hit) =>
      if bool_decide (now < expires) then (hit, w)
      else
        let (r, w') := get_eonet_data_uncached days w in
        (r, {| requests := requests w'; cache := <[days := (now + ttl, r)]> (cache w') |})
  | None =>
      let (r, w') := get_eonet_data_uncached days w in
      (r, {| requests := requests w'; cache := <[days := (now + ttl, r)]> (cache w') |})
  end.

(** A run of calls [(days, now)], in order; the outcomes in order. *)
Fixpoint calls (cs : list (Z * Z)) (w : Fetcher) : list Fetched * Fetcher :=
  match cs with
  | [] => ([], w)
  | (days, now) :: cs' =>
      let (r, w1) := get_eonet_data days now w in
      let (rs, w2) := calls cs' w1 in
      (r :: rs, w2)
  end.

Variable parse : string → option Timestamp.

(** How one run of the script ends: the page is complete, or an
    uncaught exception stopped the script after part of the page. *)
Inductive Outcome : Type :=
| Finished (elements : list Element)
| Uncaught (e : exn) (elements : list Element).

(** Python's truth value of [events_data]: [None] and the empty list
    are false. *)
Definition truthy (events_data : option (list RawEvent)) : bool :=
  match events_data with
  | Some (_ :: _) => true
  | _ => false
  end.

(** Lines 49-136, given the outcome of line 46. *)
Definition process (fetched : Fetched) (sel : Selection) : Outcome :=
  let top := [st_title; st_markdown] ++ shown fetched in
  if truthy (returned fetched) then
    match normalize parse (default [] (returned fetched)) with
    | Ok table =>
        let run :=
          df ← alloc {| frame_rows := table; frame_date_str := None |};
          filter_and_render df sel in
        Finished (page (run {| heap := ∅; page := top |}).2)
    | Raise e => Uncaught e top
    end
  else Finished (top ++ [st_error LoadFailed]).

(** One run of the whole script at time [now]. *)
Definition app (now : Z) (sel : Selection) (w : Fetcher) : Outcome * Fetcher :=
  let (fetched, w') := get_eonet_data 3650 now w in
  (process fetched sel, w').

End EventFetcher.

(** ** The rows of the specification

    The specification describes normalisation one event at a time
    (section 4.2); the script works one column at a time.  [row_of] is
    the specification's reading, compared with [normalize] below. *)

Definition extract_row (e : RawEvent) : result Extracted :=
  c ← category_of (ev_categories e);
  d ← date_of (ev_geometry e);
  la ← latitude_of (ev_geometry e);
  lo ← longitude_of (ev_geometry e);
  Ok {| x_event := e; x_category := c; x_date := d; x_latitude := la; x_longitude := lo |}.

Definition finish (parse : string → option Timestamp) (x : Extracted) : result (option Row) :=
  match notna x with
  | None => Ok None
  | Some c =>
      match parse (c_date c) with
      | Some t => Ok (Some (with_date c t))
      | None => Raise (ValueError (c_date c))
      end
  end.

Definition row_of (parse : string → option Timestamp) (e : RawEvent) : result (option Row) :=
  x ← extract_row e; finish parse x.

(** The first geometry sample of an event, if it has one. *)
Definition first_sample (e : RawEvent) : option GeometrySample :=
  geoms ← ev_geometry e; head geoms.

(** An event is complete when its first geometry sample has a date and
    at least two coordinates. *)
Definition complete (e : RawEvent) : bool :=
  match first_sample e with
  | Some g => bool_decide (is_Some (g_date g)) &&
              bool_decide (2 ≤ length (get (g_coordinates g) []))%nat
  | None => false
  end.

(** The category of the specification: the title of the first entry of
    the category sequence, or the sentinel when the sequence is empty. *)
Definition category_spec (e : RawEvent) : option string :=
  match ev_categories e with
  | Some [] => Some "N/A"
  | Some (c :: _) => cat_title c
  | None => None
  end.

(** The coordinate list of the first geometry sample ([[]] without one). *)
Definition first_coordinates (e : RawEvent) : list Q :=
  match first_sample e with
  | Some g => get (g_coordinates g) []
  | None => []
  end.

(** The category and geometry cells of a row can be read: the event has
    both keys, and the first category entry, if any, has a title. *)
Definition readable (e : RawEvent) : Prop :=
  is_Some (category_spec e) ∧ is_Some (ev_geometry e).

(** The derived cells of a readable event, as the specification has
    them. *)
Definition derived (e : RawEvent) (x : Extracted) : Prop :=
  x_event x = e ∧
  category_spec e = Some (x_category x) ∧
  x_date x = first_sample e ≫= g_date ∧
  x_latitude x = first_coordinates e !! 1%nat ∧
  x_longitude x = first_coordinates e !! 0%nat.

(** The first geometry sample lacks the date, or the coordinates, or has
    fewer than two coordinates. *)
Definition lacking (g : GeometrySample) : Prop :=
  g_date g = None ∨ g_coordinates g = None ∨
  ∃ cs, g_coordinates g = Some cs ∧ (length cs < 2)%nat.

(** The date of a complete event can be parsed. *)
Definition datable (parse : string → option Timestamp) (e : RawEvent) : Prop :=
  complete e = true → ∃ d, first_sample e ≫= g_date = Some d ∧ is_Some (parse d).

(** The events of the end-to-end example. *)
Definition sample (d : string) (coords : list Q) : GeometrySample :=
  {| g_date := Some d; g_coordinates := Some coords |}.

Definition event_A (title : option string) : RawEvent :=
  {| ev_id := Some "A"; ev_title := title;
     ev_categories := Some [ {| cat_title := Some "Wildfires" |} ];
     ev_geometry := Some [ sample "2020-05-01T00:00:00Z" [10 # 1; 20 # 1]%Q ] |}.

Definition event_B (title : option string) : RawEvent :=
  {| ev_id := Some "B"; ev_title := title;
     ev_categories := Some []; ev_geometry := Some [] |}.

(** An event whose first sample has one coordinate only. *)
Definition event_short : RawEvent :=
  {| ev_id := Some "C"; ev_title := Some "Flood";
     ev_categories := Some [ {| cat_title := Some "Floods" |} ];
     ev_geometry := Some [ sample "2020-05-01T00:00:00Z" [(10 # 1)%Q] ] |}.

(** An event whose date is not a timestamp. *)
Definition event_undated : RawEvent :=
  {| ev_id := Some "D"; ev_title := Some "Storm";
     ev_categories := Some [ {| cat_title := Some "Severe Storms" |} ];
     ev_geometry := Some [ sample "not-a-date" [10 # 1; 20 # 1]%Q ] |}.

(** The row of event A in the end-to-end example. *)
Definition row_A (title : option string) : Row :=
  {| row_event := event_A title; category := "Wildfires";
     date := {| ts_year := 2020; ts_month := 5; ts_day := 1; ts_hour := 0;
                ts_minute := 0; ts_second := 0; ts_utcoffset := 0 |};
     latitude := (20 # 1)%Q; longitude := (10 # 1)%Q; year := 2020 |}.

(** The event with its geometry list cut after the first sample. *)
Definition first_only (e : RawEvent) : RawEvent :=
  {| ev_id := ev_id e; ev_title := ev_title e; ev_categories := ev_categories e;
     ev_geometry := take 1 <$> ev_geometry e |}.

(** The row with its four source columns replaced. *)
Definition on_event (f : RawEvent → RawEvent) (r : Row) : Row :=
  {| row_event := f (row_event r); category := category r; date := date r;
     latitude := latitude r; longitude := longitude r; year := year r |}.



(** * Properties *)

(** ** The [result] monad and [apply] *)

Lemma bind_Ok {A B : Type} (m : result A) (f : A → result B) (b : B) :
  m ≫= f = Ok b ↔ ∃ a, m = Ok a ∧ f a = Ok b.
Proof.
  destruct m as [a|e]; simpl.
  - split; [eauto | intros (a' & [= <-] & ?); done].
  - split; [done | intros (a' & [=] & _)].
Qed.

Lemma apply_Ok_cons {A B : Type} (f : A → result B) x col ys :
  apply f (x :: col) = Ok ys ↔
  ∃ y ys', f x = Ok y ∧ apply f col = Ok ys' ∧ ys = y :: ys'.
Proof.
  simpl. rewrite bind_Ok. split.
  - intros (y & Hy & H). apply bind_Ok in H as (ys' & Hys & [= <-]). eauto.
  - intros (y & ys' & Hy & Hys & ->). exists y. split; [done|].
    apply bind_Ok. eauto.
Qed.

Lemma apply_Ok_Forall2 {A B : Type} (f : A → result B) col ys :
  apply f col = Ok ys ↔ Forall2 (λ x y, f x = Ok y) col ys.
Proof.
  revert ys. induction col as [|x col IH]; intros ys.
  - simpl. split; [intros [= <-]; constructor | by inversion 1].
  - rewrite apply_Ok_cons. split.
    + intros (y & ys' & Hy & Hys & ->). constructor; [done | by apply IH].
    + inversion 1 as [|? y ? ys' Hy Hys]; subst. exists y, ys'. by rewrite IH.
Qed.

Lemma apply_Ok_app {A B : Type} (f : A → result B) col1 col2 ys :
  apply f (col1 ++ col2) = Ok ys ↔
  ∃ ys1 ys2, apply f col1 = Ok ys1 ∧ apply f col2 = Ok ys2 ∧ ys = ys1 ++ ys2.
Proof.
  rewrite apply_Ok_Forall2. split.
  - intros (ys1 & ys2 & H1 & H2 & ->)%Forall2_app_inv_l.
    exists ys1, ys2. by rewrite !apply_Ok_Forall2.
  - intros (ys1 & ys2 & H1 & H2 & ->). apply Forall2_app; by apply apply_Ok_Forall2.
Qed.

Lemma apply_compose {A B C : Type} (f : A → result B) (g : B → result C) col zs :
  apply (λ a, f a ≫= g) col = Ok zs ↔
  ∃ ys, apply f col = Ok ys ∧ apply g ys = Ok zs.
Proof.
  revert zs. induction col as [|a col IH]; intros zs.
  - simpl. split.
    + intros [= <-]. by exists [].
    + intros (ys & [= <-] & H). done.
  - rewrite apply_Ok_cons. split.
    + intros (z & zs' & Hz & Hzs & ->).
      apply bind_Ok in Hz as (y & Hy & Hz).
      apply IH in Hzs as (ys & Hys & Hzs).
      exists (y :: ys). rewrite !apply_Ok_cons. split; eauto 10.
    + intros (ys & Hys & Hzs).
      apply apply_Ok_cons in Hys as (y & ys' & Hy & Hys & ->).
      apply apply_Ok_cons in Hzs as (z & zs' & Hz & Hzs & ->).
      exists z, zs'. split_and!; [|apply IH; eauto|done].
      apply bind_Ok. eauto.
Qed.

(** ** Column-wise and row-wise normalisation agree *)

Lemma extract_cons e evs xs :
  extract (e :: evs) = Ok xs ↔
  ∃ x xs', extract_row e = Ok x ∧ extract evs = Ok xs' ∧ xs = x :: xs'.
Proof.
  unfold extract, extract_row. rewrite !fmap_cons. cbn [apply].
  destruct (category_of (ev_categories e)) as [c|?],
           (apply category_of (ev_categories <$> evs)) as [cs|?];
    simpl; try (split; [done | by intros (? & ? & ? & ? & ?); simplify_eq/=]).
  destruct (date_of (ev_geometry e)) as [d|?],
           (apply date_of (ev_geometry <$> evs)) as [ds|?];
    simpl; try (split; [done | by intros (? & ? & ? & ? & ?); simplify_eq/=]).
  destruct (latitude_of (ev_geometry e)) as [la|?],
           (apply latitude_of (ev_geometry <$> evs)) as [las|?];
    simpl; try (split; [done | by intros (? & ? & ? & ? & ?); simplify_eq/=]).
  destruct (longitude_of (ev_geometry e)) as [lo|?],
           (apply longitude_of (ev_geometry <$> evs)) as [los|?];
    simpl; try (split; [done | by intros (? & ? & ? & ? & ?); simplify_eq/=]).
  split.
  - intros [= <-]. eauto.
  - intros (x & xs' & [= <-] & [= <-] & ->). done.
Qed.

Lemma extract_rowwise evs xs :
  extract evs = Ok xs ↔ apply extract_row evs = Ok xs.
Proof.
  revert xs. induction evs as [|e evs IH]; intros xs; [done|].
  rewrite extract_cons, apply_Ok_cons. by setoid_rewrite IH.
Qed.

Lemma dropna_cons x xs :
  dropna (x :: xs) =
  match notna x with Some c => c :: dropna xs | None => dropna xs end.
Proof. done. Qed.

Lemma to_datetime_cons parse s col :
  to_datetime parse (s :: col) =
  match parse s with
  | Some t => ts ← to_datetime parse col; Ok (t :: ts)
  | None => Raise (ValueError s)
  end.
Proof. unfold to_datetime. simpl. by destruct (parse s). Qed.

Lemma finish_rowwise parse xs tbl :
  (∃ ts, to_datetime parse (c_date <$> dropna xs) = Ok ts ∧
         tbl = zip_with with_date (dropna xs) ts) ↔
  (∃ rs, apply (finish parse) xs = Ok rs ∧ tbl = omap id rs).
Proof.
  revert tbl. induction xs as [|x xs IH]; intros tbl.
  - simpl. split.
    + intros (ts & [= <-] & ->). by exists [].
    + intros (rs & [= <-] & ->). by exists [].
  - setoid_rewrite apply_Ok_cons. rewrite dropna_cons. unfold finish at 1.
    destruct (notna x) as [c|].
    + rewrite fmap_cons, to_datetime_cons.
      destruct (parse (c_date c)) as [t|].
      * split.
        -- intros (ts & Hts & ->). apply bind_Ok in Hts as (ts' & Hts' & [= <-]).
           destruct (proj1 (IH _) (ex_intro _ ts' (conj Hts' eq_refl))) as (rs & Hrs & Heq).
           exists (Some (with_date c t) :: rs). split; [eauto 10|].
           cbn [zip_with]. rewrite Heq. done.
        -- intros (rs & (r & rs' & [= <-] & Hrs & ->) & ->).
           destruct (proj2 (IH _) (ex_intro _ rs' (conj Hrs eq_refl))) as (ts & Hts & Heq).
           exists (t :: ts). rewrite Hts. cbn [zip_with]. rewrite <-Heq. done.
      * split; [intros (? & [=] & _) | intros (? & (? & ? & [=] & _) & _)].
    + rewrite IH. split.
      * intros (rs & Hrs & ->). exists (None :: rs). eauto 10.
      * intros (rs & (r & rs' & [= <-] & Hrs & ->) & ->). eauto.
Qed.

Lemma row_of_rowwise parse evs rs :
  apply (row_of parse) evs = Ok rs ↔
  ∃ xs, apply extract_row evs = Ok xs ∧ apply (finish parse) xs = Ok rs.
Proof. apply apply_compose. Qed.

(** The script's column-at-a-time pipeline succeeds exactly when the
    specification's row-at-a-time reading does, with the same table. *)
Lemma normalize_rowwise parse evs tbl :
  normalize parse evs = Ok tbl ↔
  missing_columns evs = [] ∧
  ∃ rs, apply (row_of parse) evs = Ok rs ∧ tbl = omap id rs.
Proof.
  unfold normalize, select_columns.
  destruct (missing_columns evs) as [|l ls]; simpl; [|split; [done | by intros [? _]]].
  setoid_rewrite row_of_rowwise. split.
  - intros Hn. split; [done|].
    destruct (extract evs) as [xs|] eqn:Hx; simpl in Hn; [|done].
    apply extract_rowwise in Hx.
    destruct (to_datetime parse (c_date <$> dropna xs)) as [ts|] eqn:Hts; simpl in Hn; [|done].
    injection Hn as <-.
    destruct (proj1 (finish_rowwise parse xs _) (ex_intro _ ts (conj Hts eq_refl)))
      as (rs & Hrs & Heq).
    exists rs. split; [eauto | done].
  - intros (_ & rs & (xs & Hx & Hrs) & ->).
    apply extract_rowwise in Hx. rewrite Hx. simpl.
    destruct (proj2 (finish_rowwise parse xs _) (ex_intro _ rs (conj Hrs eq_refl)))
      as (ts & Hts & Heq).
    rewrite Hts. simpl. by rewrite Heq.
Qed.

(** ** The extraction lambdas *)

(** The length guard of lines 60-61 protects both subscripts: on a
    non-empty geometry list the lambda never raises. *)
Lemma coordinate_of_sample i g rest :
  coordinate_of i (Some (g :: rest)) = Ok (get (g_coordinates g) [] !! i).
Proof.
  unfold coordinate_of. case_bool_decide as Hlen.
  - destruct (g_coordinates g) as [cs|]; simpl in *; [|lia].
    unfold index. apply lookup_lt_is_Some_2 in Hlen as [v Hv]. by rewrite Hv.
  - symmetry. f_equal. apply lookup_ge_None_2. lia.
Qed.

Lemma complete_sample e g rest :
  ev_geometry e = Some (g :: rest) →
  complete e = true ↔
  ∃ d lon lat more, g_date g = Some d ∧ g_coordinates g = Some (lon :: lat :: more).
Proof.
  intros Hg. unfold complete, first_sample. rewrite Hg. simpl.
  rewrite andb_true_iff, !bool_decide_eq_true. split.
  - intros [[d Hd] Hlen]. destruct (g_coordinates g) as [[|lon [|lat more]]|];
      simpl in Hlen; try lia. eauto 10.
  - intros (d & lon & lat & more & -> & ->). simpl. split; [eauto | lia].
Qed.

Lemma complete_geometry e :
  complete e = true → ∃ g rest, ev_geometry e = Some (g :: rest).
Proof.
  unfold complete, first_sample.
  destruct (ev_geometry e) as [[|g rest]|]; simpl; [done | eauto | done].
Qed.

(** Opens a hypothesis made of nested existentials and conjunctions and
    closes the goal when its equations are contradictory. *)
Ltac open_record :=
  let H := fresh "H" in
  intros H;
  repeat match type of H with
         | ex _ => destruct H as [? H]
         | _ ∧ _ => destruct H as [? H]
         end;
  simplify_eq/=; try done.

(** A row is produced exactly for a complete event whose date parses. *)
Lemma row_of_Some parse e r :
  row_of parse e = Ok (Some r) ↔
  ∃ c g rest d lon lat more t,
    category_of (ev_categories e) = Ok c ∧
    ev_geometry e = Some (g :: rest) ∧
    g_date g = Some d ∧ g_coordinates g = Some (lon :: lat :: more) ∧
    parse d = Some t ∧
    r = {| row_event := e; category := c; date := t;
           latitude := lat; longitude := lon; year := ts_year t |}.
Proof.
  unfold row_of, extract_row, latitude_of, longitude_of.
  destruct (category_of (ev_categories e)) as [c|ex] eqn:Hcat; simpl;
    [|split; [done | open_record]].
  destruct (ev_geometry e) as [[|g rest]|] eqn:Hg;
    [simpl; split; [done | open_record] | | simpl; split; [done | open_record]].
  rewrite !coordinate_of_sample. simpl. unfold finish, notna. simpl.
  destruct (g_coordinates g) as [[|lon [|lat more]]|] eqn:Hco; simpl;
    try (split; [done | open_record]).
  destruct (g_date g) as [d|] eqn:Hd; simpl; [|split; [done | open_record]].
  destruct (parse d) as [t|] eqn:Ht; simpl.
  - split; [|open_record].
    intros [= <-]. exists c, g, rest, d, lon, lat, more, t. done.
  - split; [done | open_record].
Qed.

(** An event is dropped, without an exception, exactly when its category
    and geometry cells are usable and it is not complete. *)
Lemma row_of_None parse e :
  row_of parse e = Ok None ↔
  (∃ c, category_of (ev_categories e) = Ok c) ∧
  is_Some (ev_geometry e) ∧ complete e = false.
Proof.
  unfold row_of, extract_row, latitude_of, longitude_of, complete, first_sample.
  destruct (category_of (ev_categories e)) as [c|ex]; simpl;
    [|split; [done | by intros [[? ?] _]]].
  destruct (ev_geometry e) as [[|g rest]|] eqn:Hg;
    [simpl; split; eauto | | simpl; split; [done | by intros (_ & [? ?] & _)]].
  rewrite !coordinate_of_sample. simpl. unfold finish, notna. simpl.
  destruct (g_coordinates g) as [[|lon [|lat more]]|]; simpl;
    rewrite ?andb_false_r; try (split; by eauto).
  destruct (g_date g) as [d|]; simpl; [|split; by eauto].
  destruct (parse d); split; try done; by intros (_ & _ & ?).
Qed.

Lemma row_of_event parse e r :
  row_of parse e = Ok (Some r) → row_event r = e ∧ complete e = true.
Proof.
  intros (c & g & rest & d & lon & lat & more & t & _ & Hg & Hd & Hc & _ & ->)%row_of_Some.
  split; [done|]. apply (complete_sample e g rest Hg). eauto 10.
Qed.

(** The rows of a normalised table are those of the complete events, in
    the order of the input. *)
Lemma rows_of_complete parse evs rs :
  apply (row_of parse) evs = Ok rs →
  row_event <$> omap id rs = filter (λ e, complete e = true) evs.
Proof.
  revert rs. induction evs as [|e evs IH]; intros rs.
  - by intros [= <-].
  - intros (r & rs' & Hr & Hrs & ->)%apply_Ok_cons. specialize (IH _ Hrs).
    rewrite filter_cons. destruct r as [r|]; simpl.
    + apply row_of_event in Hr as [-> Hc]. rewrite decide_True by done.
      by rewrite <-IH.
    + apply row_of_None in Hr as (_ & _ & Hc). rewrite decide_False by congruence.
      done.
Qed.

(** ** The end-to-end example *)

(** C1 (as stated): on the two records as written, without a [title]
    key, line 54 selects a column that [json_normalize] did not create
    and pandas raises KeyError; no table is produced. *)
Lemma example_without_title_raises :
  normalize parse_iso8601 [event_A None; event_B None] = Raise (KeyError ["title"]).
Proof. reflexivity. Qed.

(** C1 (amended): when the two records also carry a title, normalising
    them yields exactly one row, that of record A, with category
    Wildfires, date 2020-05-01, latitude 20, longitude 10 and year 2020;
    record B is dropped. *)
Theorem example_normalizes (title_A title_B : string) :
  normalize parse_iso8601 [event_A (Some title_A); event_B (Some title_B)] =
  Ok [row_A (Some title_A)].
Proof. reflexivity. Qed.

(** ** Which records survive *)

Lemma category_of_spec e c :
  category_of (ev_categories e) = Ok c ↔ category_spec e = Some c.
Proof.
  unfold category_of, category_spec.
  destruct (ev_categories e) as [[|c0 cs]|]; simpl; [split; congruence | | done].
  destruct (cat_title c0); simpl; split; congruence.
Qed.

Lemma date_of_first e :
  is_Some (ev_geometry e) → date_of (ev_geometry e) = Ok (first_sample e ≫= g_date).
Proof. unfold first_sample. intros [[|g rest] ->]; done. Qed.

Lemma coordinate_of_first i e :
  is_Some (ev_geometry e) →
  coordinate_of i (ev_geometry e) = Ok (first_coordinates e !! i).
Proof.
  unfold first_coordinates, first_sample. intros [[|g rest] ->]; [done|].
  apply coordinate_of_sample.
Qed.

Lemma extract_row_Ok e x : extract_row e = Ok x ↔ readable e ∧ derived e x.
Proof.
  unfold readable, derived, extract_row, latitude_of, longitude_of. split.
  - destruct (category_of (ev_categories e)) as [c|] eqn:Hc; simpl; [|done].
    apply category_of_spec in Hc.
    assert (is_Some (ev_geometry e) ∨ ev_geometry e = None) as [Hg|Hg]
      by (destruct (ev_geometry e); eauto); [|by rewrite Hg].
    rewrite date_of_first, !coordinate_of_first by done.
    simpl. intros [= <-]. simpl. rewrite Hc. eauto 10.
  - intros [[_ Hg] (He & Hc & Hd & Hla & Hlo)].
    apply category_of_spec in Hc. rewrite Hc. simpl.
    rewrite date_of_first, !coordinate_of_first by done. simpl.
    destruct x; simpl in *. congruence.
Qed.

Lemma readable_extract_row e : readable e → ∃ x, extract_row e = Ok x.
Proof.
  intros [[c Hc] Hg].
  exists {| x_event := e; x_category := c; x_date := first_sample e ≫= g_date;
            x_latitude := first_coordinates e !! 1%nat;
            x_longitude := first_coordinates e !! 0%nat |}.
  apply extract_row_Ok. unfold readable, derived. rewrite Hc. simpl. eauto 10.
Qed.

Lemma apply_exists {A B : Type} (f : A → result B) col :
  Forall (λ x, ∃ y, f x = Ok y) col → ∃ ys, apply f col = Ok ys.
Proof.
  induction 1 as [|x col [y Hy] _ [ys Hys]]; [by exists []|].
  exists (y :: ys). apply apply_Ok_cons. eauto.
Qed.

Lemma apply_Raise_inv {A B : Type} (f : A → result B) col e :
  apply f col = Raise e → ∃ x, x ∈ col ∧ f x = Raise e.
Proof.
  induction col as [|a col IH]; [done|]. simpl.
  destruct (f a) as [b|ea] eqn:Hfa; simpl.
  - destruct (apply f col) as [ys|e'] eqn:Hcol; simpl; [done|].
    intros [= ->]. destruct (IH eq_refl) as (x & Hx & Hfx).
    exists x. split; [by right | done].
  - intros [= ->]. exists a. split; [by left | done].
Qed.

Lemma extract_readable evs :
  Forall readable evs → ∃ xs, extract evs = Ok xs ∧ Forall2 derived evs xs.
Proof.
  intros Hr.
  destruct (apply_exists extract_row evs) as [xs Hxs].
  { eapply Forall_impl; [exact Hr|]. apply readable_extract_row. }
  exists xs. split; [by apply extract_rowwise|].
  apply apply_Ok_Forall2 in Hxs. eapply Forall2_impl; [exact Hxs|].
  intros e x Hx. by apply extract_row_Ok in Hx as [_ ?].
Qed.

Lemma row_of_total parse e :
  (∃ r, row_of parse e = Ok r) ↔ readable e ∧ datable parse e.
Proof.
  split.
  - intros [[r|] Hr].
    + pose proof Hr as
        (c & g & rest & d & lon & lat & more & t & Hc & Hg & Hd & Hco & Ht & ->)%row_of_Some.
      split.
      * split; [exists c; by apply category_of_spec | by rewrite Hg].
      * intros _. exists d. unfold first_sample. rewrite Hg. simpl. by rewrite Hd, Ht.
    + apply row_of_None in Hr as ([c Hc] & Hg & Hcompl). split.
      * split; [exists c; by apply category_of_spec | done].
      * intros ?. congruence.
  - intros [[[c Hc] [geoms Hg]] Hd].
    destruct (complete e) eqn:Hcompl.
    + destruct (Hd Hcompl) as (d & Hdate & [t Ht]).
      destruct (complete_geometry e Hcompl) as (g & rest & Hg').
      apply (complete_sample e g rest Hg') in Hcompl as (d' & lon & lat & more & Hd' & Hco).
      unfold first_sample in Hdate. rewrite Hg' in Hdate. simpl in Hdate.
      assert (d' = d) as -> by congruence.
      eexists (Some _). apply row_of_Some.
      exists c, g, rest, d, lon, lat, more, t.
      split_and!; [by apply category_of_spec | done..].
    + exists None. apply row_of_None. split_and!; [|by rewrite Hg|done].
      exists c. by apply category_of_spec.
Qed.

Lemma normalize_total parse evs :
  (∃ tbl, normalize parse evs = Ok tbl) ↔
  missing_columns evs = [] ∧ Forall readable evs ∧ Forall (datable parse) evs.
Proof.
  split.
  - intros [tbl (Hm & rs & Hrs & _)%normalize_rowwise]. split; [done|].
    apply apply_Ok_Forall2 in Hrs.
    assert (Forall (λ e, ∃ r, row_of parse e = Ok r) evs) as Hall.
    { eapply Forall2_Forall_l; [exact Hrs|]. apply Forall_true. eauto. }
    split; eapply Forall_impl; try exact Hall; intros e He; by apply row_of_total in He as [? ?].
  - intros (Hm & Hr & Hd).
    destruct (apply_exists (row_of parse) evs) as [rs Hrs].
    { apply Forall_forall. intros e He. apply row_of_total.
      rewrite Forall_forall in Hr, Hd. eauto. }
    exists (omap id rs). apply normalize_rowwise. eauto.
Qed.

(** C4 (as stated): a record whose geometry sequence is not empty is
    dropped all the same when its first sample has a single coordinate:
    the table of the one-record input is empty. *)
Lemma short_coordinates_dropped :
  ev_geometry event_short ≠ Some [] ∧
  ev_geometry event_short ≠ None ∧
  normalize parse_iso8601 [event_short] = Ok [].
Proof. split_and!; [done | done | reflexivity]. Qed.

(** C4 (amended): whenever normalisation succeeds, the table holds, in
    input order, exactly the complete records, those whose geometry
    sequence is not empty and whose first geometry sample has a date and
    at least two coordinates; every other record is dropped, a record
    with an empty geometry sequence among them. *)
Theorem survivors_are_complete parse evs tbl :
  normalize parse evs = Ok tbl →
  row_event <$> tbl = filter (λ e, complete e = true) evs.
Proof.
  intros (_ & rs & Hrs & ->)%normalize_rowwise. by eapply rows_of_complete.
Qed.

Lemma survivors_are_complete_witness :
  row_event <$> [row_A (Some "Fire")] =
  filter (λ e, complete e = true) [event_A (Some "Fire"); event_B None; event_short].
Proof.
  apply (survivors_are_complete parse_iso8601
           [event_A (Some "Fire"); event_B None; event_short] [row_A (Some "Fire")]).
  reflexivity.
Defined.

(** ** Derived fields *)

Lemma row_fields parse evs tbl r :
  normalize parse evs = Ok tbl → r ∈ tbl →
  row_event r ∈ evs ∧
  category_spec (row_event r) = Some (category r) ∧
  first_coordinates (row_event r) !! 1%nat = Some (latitude r) ∧
  first_coordinates (row_event r) !! 0%nat = Some (longitude r) ∧
  year r = ts_year (date r).
Proof.
  intros (_ & rs & Hrs & ->)%normalize_rowwise Hr.
  apply list_elem_of_omap in Hr as (o & Ho & Heq). simpl in Heq. subst o.
  apply apply_Ok_Forall2 in Hrs.
  apply list_elem_of_lookup in Ho as [i Hi].
  destruct (Forall2_lookup_r _ _ _ _ _ Hrs Hi) as (e & He & Hrow).
  apply row_of_Some in Hrow
    as (c & g & rest & d & lon & lat & more & t & Hc & Hg & Hd & Hco & Ht & ->).
  simpl. split_and!; [by eapply list_elem_of_lookup_2 | by apply category_of_spec | | | done].
  all: unfold first_coordinates, first_sample; rewrite Hg; simpl; by rewrite Hco.
Qed.

(** C7: for every raw event whose category and geometry cells are
    readable, extraction succeeds and derives the category as the title
    of the first category entry, or "N/A" for an empty category list, the
    latitude as index 1 and the longitude as index 0 of the first
    sample's coordinates; the rows of the normalised table carry these
    values. *)
Theorem derived_fields evs :
  Forall readable evs →
  (∃ xs, extract evs = Ok xs ∧ Forall2 derived evs xs) ∧
  (∀ parse tbl r, normalize parse evs = Ok tbl → r ∈ tbl →
     category_spec (row_event r) = Some (category r) ∧
     first_coordinates (row_event r) !! 1%nat = Some (latitude r) ∧
     first_coordinates (row_event r) !! 0%nat = Some (longitude r)).
Proof.
  intros Hr. split; [by apply extract_readable|].
  intros parse tbl r Hn Hin.
  destruct (row_fields parse evs tbl r Hn Hin) as (_ & ? & ? & ? & _). done.
Qed.

Lemma derived_fields_witness :
  (∃ xs, extract [event_A (Some "Fire"); event_B None] = Ok xs ∧
         Forall2 derived [event_A (Some "Fire"); event_B None] xs) ∧
  (∀ parse tbl r,
     normalize parse [event_A (Some "Fire"); event_B None] = Ok tbl → r ∈ tbl →
     category_spec (row_event r) = Some (category r) ∧
     first_coordinates (row_event r) !! 1%nat = Some (latitude r) ∧
     first_coordinates (row_event r) !! 0%nat = Some (longitude r)).
Proof.
  apply (derived_fields [event_A (Some "Fire"); event_B None]).
  repeat constructor; simpl; eauto.
Defined.

(** The derived cells of the two example events: the sentinel for the
    empty category list, and latitude and longitude swapped out of the
    [longitude, latitude] pair. *)
Example derived_cells_example :
  extract [event_A None; event_B None] =
  Ok [ {| x_event := event_A None; x_category := "Wildfires";
          x_date := Some "2020-05-01T00:00:00Z";
          x_latitude := Some (20 # 1)%Q; x_longitude := Some (10 # 1)%Q |};
       {| x_event := event_B None; x_category := "N/A"; x_date := None;
          x_latitude := None; x_longitude := None |} ].
Proof. reflexivity. Qed.

(** ** Dates that do not parse *)

Lemma to_datetime_Raise parse col ex :
  to_datetime parse col = Raise ex →
  ∃ d, d ∈ col ∧ parse d = None ∧ ex = ValueError d.
Proof.
  intros (d & Hd & Hp)%apply_Raise_inv. exists d.
  destruct (parse d); [done|]. by injection Hp as <-.
Qed.

(** C3 (as stated): a record whose date string does not parse is not
    dropped; [pd.to_datetime] raises and no table is produced, not even
    for the well-formed record next to it. *)
Lemma unparseable_date_not_dropped :
  parse_iso8601 "not-a-date" = None ∧
  normalize parse_iso8601 [event_undated; event_A (Some "Fire")] =
  Raise (ValueError "not-a-date").
Proof. split; reflexivity. Qed.

(** C3 (amended): a record whose first geometry sample carries
    coordinates and a date string that fails to parse is not dropped: the
    null filter runs before the parsing and keeps it, and normalisation of
    the whole table raises; when the cells of the table are readable the
    exception is the ValueError of [pd.to_datetime] on a date that does
    not parse. *)
Theorem unparseable_date_raises parse evs e d :
  e ∈ evs → complete e = true → first_sample e ≫= g_date = Some d → parse d = None →
  ∃ ex, normalize parse evs = Raise ex ∧
        (missing_columns evs = [] → Forall readable evs →
         ∃ d', ex = ValueError d' ∧ parse d' = None).
Proof.
  intros He Hc Hd Hp.
  destruct (normalize parse evs) as [tbl|ex] eqn:Hn.
  - exfalso.
    destruct (proj1 (normalize_total parse evs) (ex_intro _ tbl Hn)) as (_ & _ & Hdat).
    rewrite Forall_forall in Hdat.
    destruct (Hdat e He Hc) as (d' & Hd' & [t Ht]). congruence.
  - exists ex. split; [done|]. intros Hm Hr.
    unfold normalize, select_columns in Hn. rewrite Hm in Hn. simpl in Hn.
    destruct (extract_readable evs Hr) as (xs & Hxs & _). rewrite Hxs in Hn. simpl in Hn.
    destruct (to_datetime parse (c_date <$> dropna xs)) as [ts|ex'] eqn:Hts;
      simpl in Hn; [done|]. injection Hn as ->.
    apply to_datetime_Raise in Hts as (d' & _ & Hp' & ->). eauto.
Qed.

Lemma unparseable_date_raises_witness :
  ∃ ex, normalize parse_iso8601 [event_undated; event_A (Some "Fire")] = Raise ex ∧
        (missing_columns [event_undated; event_A (Some "Fire")] = [] →
         Forall readable [event_undated; event_A (Some "Fire")] →
         ∃ d', ex = ValueError d' ∧ parse_iso8601 d' = None).
Proof.
  apply (unparseable_date_raises parse_iso8601 [event_undated; event_A (Some "Fire")]
           event_undated "not-a-date").
  - by left.
  - reflexivity.
  - reflexivity.
  - reflexivity.
Defined.

(** ** Samples that lack a field *)

Lemma has_column_insert {A : Type} (key : RawEvent → option A) evs1 e evs2 :
  has_column key (evs1 ++ evs2) = true → has_column key (evs1 ++ e :: evs2) = true.
Proof.
  unfold has_column. rewrite !existsb_app. simpl.
  rewrite !orb_true_iff. intros [?|?]; eauto.
Qed.

Lemma missing_columns_nil evs :
  missing_columns evs = [] ↔
  has_column ev_id evs = true ∧ has_column ev_title evs = true ∧
  has_column ev_categories evs = true ∧ has_column ev_geometry evs = true.
Proof.
  unfold missing_columns.
  destruct (has_column ev_id evs), (has_column ev_title evs),
    (has_column ev_categories evs), (has_column ev_geometry evs); simpl;
    split; (done || by intros (? & ? & ? & ?)).
Qed.

Lemma missing_columns_insert evs1 e evs2 :
  missing_columns (evs1 ++ evs2) = [] → missing_columns (evs1 ++ e :: evs2) = [].
Proof.
  rewrite !missing_columns_nil. intros (? & ? & ? & ?).
  split_and!; by apply has_column_insert.
Qed.

Lemma lacking_not_complete e g rest :
  ev_geometry e = Some (g :: rest) → lacking g → complete e = false.
Proof.
  intros Hg Hl. apply not_true_is_false.
  intros (d & lon & lat & more & Hd & Hco)%(complete_sample e g rest Hg).
  destruct Hl as [Hl|[Hl|(cs & Hcs & Hlen)]]; [congruence..|].
  rewrite Hco in Hcs. injection Hcs as <-. simpl in Hlen. lia.
Qed.

(** C10: for a raw event whose first geometry sample lacks the date key
    or the coordinates key, or has fewer than two coordinates, the three
    extraction lambdas return without raising, at least one of the three
    cells is absent so that the non-null filter rejects the row, and
    adding the event to a table that normalises leaves the normalised
    table as it was: nothing is raised and the record is dropped. *)
Theorem lacking_sample_dropped parse evs1 evs2 e g rest c tbl :
  ev_geometry e = Some (g :: rest) → lacking g →
  category_of (ev_categories e) = Ok c →
  normalize parse (evs1 ++ evs2) = Ok tbl →
  (∃ d la lo,
     date_of (ev_geometry e) = Ok d ∧
     latitude_of (ev_geometry e) = Ok la ∧
     longitude_of (ev_geometry e) = Ok lo ∧
     notna {| x_event := e; x_category := c; x_date := d;
              x_latitude := la; x_longitude := lo |} = None) ∧
  normalize parse (evs1 ++ e :: evs2) = Ok tbl.
Proof.
  intros Hg Hl Hc Hn. split.
  - exists (g_date g), (get (g_coordinates g) [] !! 1%nat),
      (get (g_coordinates g) [] !! 0%nat).
    unfold latitude_of, longitude_of. rewrite Hg, !coordinate_of_sample.
    split_and!; [done..|]. unfold notna. simpl.
    destruct Hl as [->|[->|(cs & -> & Hlen)]]; simpl.
    + by repeat case_match.
    + done.
    + destruct cs as [|lon [|lat more]]; simpl in *; [done | done | lia].
  - apply normalize_rowwise in Hn as (Hm & rs & Hrs & ->).
    apply apply_Ok_app in Hrs as (rs1 & rs2 & Hrs1 & Hrs2 & ->).
    apply normalize_rowwise. split; [by apply missing_columns_insert|].
    exists (rs1 ++ None :: rs2). split.
    + apply apply_Ok_app. exists rs1, (None :: rs2). split_and!; [done| |done].
      apply apply_Ok_cons. exists None, rs2. split_and!; [|done..].
      apply row_of_None. split_and!; [eauto | by rewrite Hg |].
      by eapply lacking_not_complete.
    + by rewrite !omap_app.
Qed.

(** An event whose first sample has no coordinates key. *)
Lemma lacking_sample_dropped_witness :
  let e := {| ev_id := Some "E"; ev_title := None; ev_categories := Some [];
              ev_geometry := Some [ {| g_date := Some "2021-01-01T00:00:00Z";
                                       g_coordinates := None |} ] |} in
  (∃ d la lo,
     date_of (ev_geometry e) = Ok d ∧
     latitude_of (ev_geometry e) = Ok la ∧
     longitude_of (ev_geometry e) = Ok lo ∧
     notna {| x_event := e; x_category := "N/A"; x_date := d;
              x_latitude := la; x_longitude := lo |} = None) ∧
  normalize parse_iso8601 ([event_A (Some "Fire")] ++ e :: [event_B None]) =
  Ok [row_A (Some "Fire")].
Proof.
  intros e.
  apply (lacking_sample_dropped parse_iso8601 [event_A (Some "Fire")] [event_B None] e
           {| g_date := Some "2021-01-01T00:00:00Z"; g_coordinates := None |} []).
  - reflexivity.
  - right. left. reflexivity.
  - reflexivity.
  - reflexivity.
Defined.

(** A table made of one such event alone normalises to the empty table. *)
Lemma lacking_sample_alone parse e g rest c :
  ev_geometry e = Some (g :: rest) → lacking g →
  category_of (ev_categories e) = Ok c →
  is_Some (ev_id e) → is_Some (ev_title e) →
  normalize parse [e] = Ok [].
Proof.
  intros Hg Hl Hc Hid Ht. apply normalize_rowwise. split.
  - apply missing_columns_nil. unfold has_column. simpl.
    rewrite !orb_false_r, !bool_decide_eq_true, Hg.
    split_and!; [done | done | | eauto].
    destruct (ev_categories e); [eauto | done].
  - exists [None]. split; [|done]. apply apply_Ok_cons. exists None, [].
    split_and!; [|done..]. apply row_of_None.
    split_and!; [eauto | by rewrite Hg | by eapply lacking_not_complete].
Qed.

(** ** Filtering *)

Lemma boolean_index_and {A : Type} (f g : A → bool) (P : A → Prop)
    `{!∀ x, Decision (P x)} (l : list A) :
  (∀ x, f x && g x = true ↔ P x) →
  boolean_index l (mask_and (f <$> l) (g <$> l)) = filter P l.
Proof.
  intros Hfg. unfold mask_and. induction l as [|a l IH]; [done|].
  rewrite filter_cons, !fmap_cons. cbn [zip_with boolean_index]. rewrite IH.
  destruct (f a && g a) eqn:Ha.
  - rewrite decide_True; [done | by apply Hfg].
  - rewrite decide_False; [done|]. rewrite <-Hfg. congruence.
Qed.

Lemma filtered_rows_filter df y cats :
  filtered_rows df {| selected_year := Some y; selected_categories := cats |} =
  filter (λ r, year r = y ∧ category r ∈ cats) df.
Proof.
  unfold filtered_rows, year_eq, isin. simpl. rewrite <-list_fmap_compose.
  apply boolean_index_and. intros r. simpl.
  rewrite andb_true_iff, !bool_decide_eq_true. naive_solver.
Qed.

Lemma filtered_rows_no_category df oy :
  filtered_rows df {| selected_year := oy; selected_categories := [] |} = [].
Proof.
  unfold filtered_rows, year_eq, isin. simpl. rewrite <-list_fmap_compose.
  rewrite (boolean_index_and _ _ (λ _, False)); [by induction df|].
  intros r. simpl. rewrite andb_false_r. done.
Qed.

(** C5: the filtered view is exactly the subsequence of the rows whose
    year equals the selected year and whose category is one of the
    selected categories; with no category selected it is empty. *)
Theorem filtered_view df y oy cats :
  filtered_rows df {| selected_year := Some y; selected_categories := cats |} =
    filter (λ r, year r = y ∧ category r ∈ cats) df ∧
  filtered_rows df {| selected_year := Some y; selected_categories := cats |} `sublist_of` df ∧
  filtered_rows df {| selected_year := oy; selected_categories := [] |} = [].
Proof.
  split_and!.
  - apply filtered_rows_filter.
  - rewrite filtered_rows_filter. apply sublist_filter.
  - apply filtered_rows_no_category.
Qed.

(** ** The options of the selection controls *)

Lemma elem_of_unique_from {A : Type} `{EqDecision A} (seen col : list A) x :
  x ∈ unique_from seen col ↔ x ∈ col ∧ x ∉ seen.
Proof.
  revert seen. induction col as [|a col IH]; intros seen; simpl.
  - rewrite elem_of_nil. naive_solver.
  - case_decide as Ha.
    + rewrite IH, elem_of_cons. split; [naive_solver|].
      intros [[->|?] ?]; done.
    + rewrite !elem_of_cons, IH, not_elem_of_cons.
      destruct (decide (x = a)) as [->|]; naive_solver.
Qed.

Lemma NoDup_unique_from {A : Type} `{EqDecision A} (seen col : list A) :
  NoDup (unique_from seen col).
Proof.
  revert seen. induction col as [|a col IH]; intros seen; simpl; [constructor|].
  case_decide; [done|]. constructor; [|done].
  rewrite elem_of_unique_from, not_elem_of_cons. naive_solver.
Qed.

Lemma elem_of_unique {A : Type} `{EqDecision A} (col : list A) x :
  x ∈ unique col ↔ x ∈ col.
Proof. unfold unique. rewrite elem_of_unique_from, elem_of_nil. naive_solver. Qed.

Lemma string_compare_trans a b c :
  String.compare a b ≠ Gt → String.compare b c ≠ Gt → String.compare a c ≠ Gt.
Proof.
  revert b c. induction a as [|x a IH]; intros [|y b] [|z c]; simpl; try done.
  unfold Ascii.compare.
  destruct (N.compare_spec (N_of_ascii x) (N_of_ascii y)) as [Hxy|Hxy|Hxy];
    destruct (N.compare_spec (N_of_ascii y) (N_of_ascii z)) as [Hyz|Hyz|Hyz];
    destruct (N.compare_spec (N_of_ascii x) (N_of_ascii z)) as [Hxz|Hxz|Hxz];
    try done; try lia.
  apply IH.
Qed.

#[global] Instance str_le_trans : Transitive str_le.
Proof.
  intros a b c. unfold str_le, String.leb. intros Hab Hbc.
  pose proof (string_compare_trans a b c) as H.
  destruct (String.compare a b), (String.compare b c), (String.compare a c);
    try done; exfalso; by apply H.
Qed.

#[global] Instance str_le_total : Total str_le.
Proof. intros a b. apply String.leb_total. Qed.

#[global] Instance Z_ge_trans : Transitive Z.ge.
Proof. intros a b c. lia. Qed.

#[global] Instance Z_ge_total : Total Z.ge.
Proof. intros a b. lia. Qed.

Lemma str_lt_le_ne a b : str_le a b → a ≠ b → str_lt a b.
Proof.
  unfold str_le, str_lt, String.leb, String.ltb. intros Hle Hne.
  destruct (String.compare a b) eqn:Hc; [|done..].
  by apply String.compare_eq_iff in Hc.
Qed.

(** A sorted list without duplicates is strictly sorted. *)
Lemma StronglySorted_strict {A : Type} (R S : relation A) (l : list A) :
  (∀ a b, R a b → a ≠ b → S a b) →
  StronglySorted R l → NoDup l → StronglySorted S l.
Proof.
  intros HRS. induction 1 as [|a l Hl IH Ha]; intros Hnd; [constructor|].
  apply NoDup_cons in Hnd as [Hnotin Hnd]. constructor; [by apply IH|].
  rewrite Forall_forall in Ha |- *. intros b Hb. apply HRS; [by apply Ha|].
  intros ->. done.
Qed.

(** C9: the year options are the distinct years of the table in strictly
    descending order, and the category options are its distinct
    categories in strictly ascending order of the case-sensitive string
    comparison. *)
Theorem selection_options df :
  StronglySorted Z.gt (available_years df) ∧
  (∀ y, y ∈ available_years df ↔ ∃ r, r ∈ df ∧ year r = y) ∧
  StronglySorted str_lt (all_categories df) ∧
  (∀ c, c ∈ all_categories df ↔ ∃ r, r ∈ df ∧ category r = c).
Proof.
  unfold available_years, all_categories. split_and!.
  - apply (StronglySorted_strict Z.ge); [lia | apply StronglySorted_merge_sort; apply _ |].
    rewrite merge_sort_Permutation. apply NoDup_unique_from.
  - intros y. rewrite merge_sort_Permutation, elem_of_unique, list_elem_of_fmap.
    naive_solver.
  - apply (StronglySorted_strict str_le); [apply str_lt_le_ne | |].
    + apply StronglySorted_merge_sort; apply _.
    + rewrite merge_sort_Permutation. apply NoDup_unique_from.
  - intros c. rewrite merge_sort_Permutation, elem_of_unique, list_elem_of_fmap.
    naive_solver.
Qed.

(** Upper-case letters sort before lower-case ones, and the newest year
    comes first. *)
Example selection_options_example :
  merge_sort str_le (unique ["wildfires"; "Floods"; "Wildfires"; "Floods"]) =
    ["Floods"; "Wildfires"; "wildfires"] ∧
  merge_sort Z.ge (unique [2019; 2021; 2019; 2020]) = [2021; 2020; 2019].
Proof. split; reflexivity. Qed.

(** ** The base table is never mutated *)

Lemma wp_bind {A B : Type} (m : Script A) (f : A → Script B) Q s :
  wp m (λ a s', wp (f a) Q s') s → wp (m ≫= f) Q s.
Proof. unfold wp, mbind, script_bind. by destruct (m s). Qed.

Lemma wp_load l f (Q : Frame → State → Prop) s :
  heap s !! l = Some f → Q f s → wp (load l) Q s.
Proof. unfold wp, load. simpl. by intros ->. Qed.

Lemma wp_emit e (Q : unit → State → Prop) s :
  Q tt {| heap := heap s; page := page s ++ [e] |} → wp (emit e) Q s.
Proof. done. Qed.

Lemma wp_alloc f (Q : positive → State → Prop) s :
  (∀ l, heap s !! l = None → Q l {| heap := <[l := f]> (heap s); page := page s |}) →
  wp (alloc f) Q s.
Proof. intros H. apply H, not_elem_of_dom, is_fresh. Qed.

Lemma wp_store l f (Q : unit → State → Prop) s :
  Q tt {| heap := <[l := f]> (heap s); page := page s |} → wp (store l f) Q s.
Proof. done. Qed.

(** One statement of a script: the address of a loaded object must be
    known, either from a hypothesis or because it was just written. *)
Ltac wp_step :=
  repeat lazymatch goal with |- wp (mbind _ _) _ _ => apply wp_bind end;
  lazymatch goal with
  | |- wp (load _) _ _ =>
      eapply wp_load; [cbn [heap]; first [eassumption | apply lookup_insert_eq]|]
  | |- wp (emit _) _ _ => apply wp_emit
  | |- wp (alloc _) _ _ => apply wp_alloc; cbn [heap page]; intros ? ?
  | |- wp (store _ _) _ _ => apply wp_store
  end;
  cbn beta; cbn [heap page].

(** The heap after lines 68-133: two objects were allocated, the
    selection [df[mask]] and its copy [filtered_df]; the copy holds the
    filtered rows and, when it is not empty, the new [date_str] column.
    Nothing else was written. *)
Lemma filter_and_render_heap df sel s base :
  heap s !! df = Some base →
  wp (filter_and_render df sel) (λ _ s',
    ∃ selected filtered_df f1 f,
      heap s !! selected = None ∧
      <[selected := f1]> (heap s) !! filtered_df = None ∧
      heap s' = <[filtered_df := f]> (<[selected := f1]> (heap s)) ∧
      frame_rows f = filtered_rows (frame_rows base) sel ∧
      (frame_rows f ≠ [] →
       frame_date_str f = Some (strftime_Ymd ∘ date <$> frame_rows f))) s.
Proof.
  intros Hdf. unfold filter_and_render, getitem_mask, copy, setitem_date_str.
  repeat wp_step. cbn [frame_rows].
  fold (filtered_rows (frame_rows base) sel) in *.
  match goal with
  | Hl : heap s !! ?l = None, Hl0 : <[?l := ?f1]> (heap s) !! ?l0 = None |- _ =>
      rename l into selected, l0 into filtered_df, Hl into Hsel, Hl0 into Hview;
      set (selection := f1) in *
  end.
  case_bool_decide as Hrows.
  - repeat wp_step. rewrite insert_insert_eq.
    eexists selected, filtered_df, selection, _. split_and!; [done..|reflexivity| |]; done.
  - wp_step.
    exists selected, filtered_df, selection, selection. split_and!; [done..|].
    intros Hne. by destruct Hne.
Qed.

(** C8: filtering and decorating the filtered view leaves the base table
    as it was, and every other object that existed before: the view that
    receives the [date_str] column is a new object, distinct from the
    base table, that holds the filtered rows. *)
Theorem base_table_unchanged df sel s base :
  heap s !! df = Some base →
  heap (filter_and_render df sel s).2 !! df = Some base ∧
  (∀ l f, heap s !! l = Some f → heap (filter_and_render df sel s).2 !! l = Some f) ∧
  ∃ filtered_df f,
    filtered_df ≠ df ∧ heap s !! filtered_df = None ∧
    heap (filter_and_render df sel s).2 !! filtered_df = Some f ∧
    frame_rows f = filtered_rows (frame_rows base) sel ∧
    (frame_rows f ≠ [] →
     frame_date_str f = Some (strftime_Ymd ∘ date <$> frame_rows f)).
Proof.
  intros Hdf.
  destruct (filter_and_render_heap df sel s base Hdf)
    as (selected & filtered_df & f1 & f & Hsel & Hview & -> & Hrows & Hstr).
  assert (∀ l g, heap s !! l = Some g →
            <[filtered_df := f]> (<[selected := f1]> (heap s)) !! l = Some g) as Hkeep.
  { intros l g Hl.
    assert (l ≠ selected) by congruence.
    assert (l ≠ filtered_df).
    { intros ->. rewrite lookup_insert_ne in Hview by done. congruence. }
    by rewrite !lookup_insert_ne. }
  split_and!; [by apply Hkeep | done |].
  exists filtered_df, f. split_and!; [| |by rewrite lookup_insert_eq|done..].
  - intros ->. destruct (decide (selected = df)) as [->|]; [congruence|].
    rewrite lookup_insert_ne in Hview by done. congruence.
  - destruct (decide (selected = filtered_df)) as [->|].
    + by rewrite lookup_insert_eq in Hview.
    + by rewrite lookup_insert_ne in Hview.
Qed.

Lemma base_table_unchanged_witness :
  let base := {| frame_rows := [row_A (Some "Fire")]; frame_date_str := None |} in
  let s := {| heap := {[ 1%positive := base ]}; page := [] |} in
  let sel := {| selected_year := Some 2020; selected_categories := ["Wildfires"] |} in
  heap (filter_and_render 1 sel s).2 !! 1%positive = Some base ∧
  (∀ l f, heap s !! l = Some f → heap (filter_and_render 1 sel s).2 !! l = Some f) ∧
  ∃ filtered_df f,
    filtered_df ≠ 1%positive ∧ heap s !! filtered_df = None ∧
    heap (filter_and_render 1 sel s).2 !! filtered_df = Some f ∧
    frame_rows f = filtered_rows (frame_rows base) sel ∧
    (frame_rows f ≠ [] →
     frame_date_str f = Some (strftime_Ymd ∘ date <$> frame_rows f)).
Proof.
  intros base s sel. apply (base_table_unchanged 1 sel s base). reflexivity.
Defined.

(** ** What the page shows when there is nothing to show *)

(** C2 (as stated): a successful fetch of zero events is shown through
    [st.error], with the very element that ends the page after a failed
    request; no warning appears. *)
Lemma empty_result_shown_as_error :
  let sel := {| selected_year := None; selected_categories := [] |} in
  let fresh_process := {| requests := []; cache := ∅ |} in
  (app (λ _ _, JsonBody (Some [])) parse_iso8601 0 sel fresh_process).1 =
    Finished [st_title; st_markdown; st_error LoadFailed] ∧
  (app (λ _ _, RequestException "timeout") parse_iso8601 0 sel fresh_process).1 =
    Finished [st_title; st_markdown; st_error (FetchFailed "timeout"); st_error LoadFailed].
Proof. split; reflexivity. Qed.

(** The page drawn for an empty table: the success message counts 0
    rows, the controls have no options, and the no-match warning ends
    the page. *)
Lemma filter_and_render_empty df sel s base :
  heap s !! df = Some base → frame_rows base = [] →
  page (filter_and_render df sel s).2 =
  page s ++ [st_success 0; st_sidebar_header; st_selectbox []; st_multiselect [] [];
             st_header (selected_year sel) (selected_categories sel); st_warning].
Proof.
  intros Hdf Hrows.
  change (wp (filter_and_render df sel) (λ _ s', page s' =
    page s ++ [st_success 0; st_sidebar_header; st_selectbox []; st_multiselect [] [];
               st_header (selected_year sel) (selected_categories sel); st_warning]) s).
  unfold filter_and_render, getitem_mask, copy, setitem_date_str.
  repeat wp_step. rewrite Hrows. cbn [frame_rows boolean_index].
  rewrite bool_decide_eq_false_2 by (intros Hne; by apply Hne).
  wp_step. rewrite <-!app_assoc. done.
Qed.

Lemma process_empty_table parse events fetched sel :
  returned fetched = Some events → events ≠ [] → normalize parse events = Ok [] →
  process parse fetched sel =
  Finished ([st_title; st_markdown] ++ shown fetched ++
            [st_success 0; st_sidebar_header; st_selectbox []; st_multiselect [] [];
             st_header (selected_year sel) (selected_categories sel); st_warning]).
Proof.
  intros Hret Hne Hn. unfold process. rewrite Hret.
  destruct events as [|e events]; [done|]. cbn [truthy]. simpl default. rewrite Hn. f_equal.
  set (top := [st_title; st_markdown] ++ shown fetched).
  change (wp (alloc {| frame_rows := []; frame_date_str := None |}
              ≫= λ df, filter_and_render df sel)
            (λ _ s', page s' = [st_title; st_markdown] ++ shown fetched ++
               [st_success 0; st_sidebar_header; st_selectbox []; st_multiselect [] [];
                st_header (selected_year sel) (selected_categories sel); st_warning])
            {| heap := ∅; page := top |}).
  wp_step. unfold wp.
  erewrite filter_and_render_empty; [|apply lookup_insert_eq|done].
  unfold top. simpl. done.
Qed.

(** C2 (amended): a successful fetch that yields zero events ends the
    page with the same [st.error] element as a failed request, which
    shows one more error with the cause, and shows no warning; only when
    events were fetched and normalisation drops every record does the
    page show a warning: the success message counts 0 rows and the
    no-match warning follows, with no error. *)
Theorem empty_result_states parse sel events :
  events ≠ [] → normalize parse events = Ok [] →
  process parse (get_eonet_data_body (JsonBody (Some []))) sel =
    Finished [st_title; st_markdown; st_error LoadFailed] ∧
  process parse (get_eonet_data_body (JsonBody None)) sel =
    Finished [st_title; st_markdown; st_error LoadFailed] ∧
  (∀ cause, process parse (get_eonet_data_body (RequestException cause)) sel =
    Finished [st_title; st_markdown; st_error (FetchFailed cause); st_error LoadFailed]) ∧
  process parse (get_eonet_data_body (JsonBody (Some events))) sel =
    Finished [st_title; st_markdown; st_success 0; st_sidebar_header; st_selectbox [];
              st_multiselect [] [];
              st_header (selected_year sel) (selected_categories sel); st_warning].
Proof.
  intros Hne Hn. split_and!; [done..|].
  by rewrite (process_empty_table parse events).
Qed.

Lemma empty_result_states_witness :
  let sel := {| selected_year := None; selected_categories := [] |} in
  process parse_iso8601 (get_eonet_data_body (JsonBody (Some []))) sel =
    Finished [st_title; st_markdown; st_error LoadFailed] ∧
  process parse_iso8601 (get_eonet_data_body (JsonBody None)) sel =
    Finished [st_title; st_markdown; st_error LoadFailed] ∧
  (∀ cause, process parse_iso8601 (get_eonet_data_body (RequestException cause)) sel =
    Finished [st_title; st_markdown; st_error (FetchFailed cause); st_error LoadFailed]) ∧
  process parse_iso8601 (get_eonet_data_body (JsonBody (Some [event_short]))) sel =
    Finished [st_title; st_markdown; st_success 0; st_sidebar_header; st_selectbox [];
              st_multiselect [] []; st_header None []; st_warning].
Proof.
  intros sel. apply (empty_result_states parse_iso8601 sel [event_short]).
  - discriminate.
  - reflexivity.
Defined.

(** ** The cache of the fetcher *)

Lemma get_eonet_data_hit upstream days now w expires hit :
  cache w !! days = Some (expires, hit) → now < expires →
  get_eonet_data upstream days now w = (hit, w).
Proof.
  intros Hc Hnow. unfold get_eonet_data. rewrite Hc.
  by rewrite bool_decide_eq_true_2.
Qed.

Lemma get_eonet_data_miss upstream days now w :
  cache w !! days = None →
  get_eonet_data upstream days now w =
  (get_eonet_data_body (upstream (length (requests w)) (api_url days)),
   {| requests := requests w ++ [api_url days];
      cache := <[days := (now + ttl,
                          get_eonet_data_body
                            (upstream (length (requests w)) (api_url days)))]> (cache w) |}).
Proof. intros Hc. unfold get_eonet_data. by rewrite Hc. Qed.

(** After the time-to-live the entry is refreshed by a new request. *)
Lemma get_eonet_data_expired upstream days now w expires hit :
  cache w !! days = Some (expires, hit) → expires ≤ now →
  requests (get_eonet_data upstream days now w).2 = requests w ++ [api_url days].
Proof.
  intros Hc Hnow. unfold get_eonet_data. rewrite Hc.
  by rewrite bool_decide_eq_false_2 by lia.
Qed.

(** A call leaves the entries of the other parameters alone. *)
Lemma get_eonet_data_other upstream days days' now w :
  days' ≠ days →
  cache (get_eonet_data upstream days' now w).2 !! days = cache w !! days.
Proof.
  intros Hne. unfold get_eonet_data.
  destruct (cache w !! days') as [[expires hit]|]; [case_bool_decide|];
    simpl; by rewrite ?lookup_insert_ne.
Qed.

Lemma calls_other upstream days cs w :
  Forall (λ c, c.1 ≠ days) cs →
  cache (calls upstream cs w).2 !! days = cache w !! days.
Proof.
  intros Hcs. revert w. induction Hcs as [|[days' now] cs Hne _ IH]; intros w; [done|].
  simpl. pose proof (get_eonet_data_other upstream days days' now w Hne) as Hstep.
  destruct (get_eonet_data upstream days' now w) as [r w1].
  specialize (IH w1). destruct (calls upstream cs w1) as [rs w2].
  simpl in *. congruence.
Qed.

(** Repeated calls before the expiry return the cached outcome and
    leave the fetcher, its log of requests included, as it is. *)
Lemma calls_hits upstream days times w expires hit :
  cache w !! days = Some (expires, hit) → Forall (λ t, t < expires) times →
  calls upstream ((λ t, (days, t)) <$> times) w = (replicate (length times) hit, w).
Proof.
  intros Hc Ht. induction Ht as [|t times Ht _ IH]; [done|].
  cbn [fmap list_fmap calls length replicate].
  rewrite (get_eonet_data_hit upstream days t w expires hit Hc Ht).
  fold (fmap (M := list) (λ t, (days, t)) times). by rewrite IH.
Qed.

(** C6: after a call that missed the cache, any number of calls with the
    same parameter within the time-to-live of 3600 seconds send no
    request and return the outcome of the first call, whatever calls
    with other parameters were made in between: the first call sent
    exactly one request, the repeated calls send none, and entries are
    kept per parameter. *)
Theorem cached_within_ttl upstream days t1 times others w :
  cache w !! days = None →
  Forall (λ t, t < t1 + 3600) times →
  Forall (λ c, c.1 ≠ days) others →
  let first := get_eonet_data upstream days t1 w in
  let between := calls upstream others first.2 in
  let again := calls upstream ((λ t, (days, t)) <$> times) between.2 in
  requests first.2 = requests w ++ [api_url days] ∧
  again.1 = replicate (length times) first.1 ∧
  again.2 = between.2.
Proof.
  intros Hc Ht Hothers first between again.
  assert (cache between.2 !! days = Some (t1 + ttl, first.1)) as Hentry.
  { unfold between. rewrite calls_other by done.
    unfold first. rewrite get_eonet_data_miss by done. simpl.
    by rewrite lookup_insert_eq. }
  unfold again. rewrite (calls_hits upstream days times _ _ _ Hentry Ht).
  split_and!; [|done..].
  unfold first. by rewrite get_eonet_data_miss.
Qed.

Lemma cached_within_ttl_witness :
  let upstream := λ (n : nat) (_ : string),
    if decide (n = 0%nat) then JsonBody (Some [event_B None])
    else RequestException "offline" in
  let w := {| requests := []; cache := ∅ |} in
  let first := get_eonet_data upstream 3650 100 w in
  let between := calls upstream [(7, 200)] first.2 in
  let again := calls upstream ((λ t, (3650, t)) <$> [300; 3699]) between.2 in
  requests first.2 = requests w ++ [api_url 3650] ∧
  again.1 = replicate (length [300; 3699]) first.1 ∧
  again.2 = between.2.
Proof.
  intros upstream w.
  apply (cached_within_ttl upstream 3650 100 [300; 3699] [(7, 200)] w).
  - reflexivity.
  - repeat constructor; lia.
  - repeat constructor. simpl. lia.
Defined.

(** Two runs of the script within the hour send one request. *)
Example two_runs_one_request :
  let upstream := λ (_ : nat) (_ : string), JsonBody (Some [event_A (Some "Fire")]) in
  let sel := {| selected_year := Some 2020; selected_categories := [] |} in
  let run1 := app upstream parse_iso8601 0 sel {| requests := []; cache := ∅ |} in
  let run2 := app upstream parse_iso8601 3599 sel run1.2 in
  let run3 := app upstream parse_iso8601 3600 sel run2.2 in
  length (requests run1.2) = 1%nat ∧ length (requests run2.2) = 1%nat ∧
  length (requests run3.2) = 2%nat.
Proof. vm_compute. done. Qed.

(** * Further properties of the pipeline *)

(** ** An event without the geometry key *)

Lemma date_of_Raise geoms ex : date_of geoms = Raise ex → geoms = None ∧ ex = TypeError.
Proof. destruct geoms as [[|g rest]|]; simpl; [done..|]. by intros [= <-]. Qed.

Lemma apply_Raise_only {A B : Type} (f : A → result B) col x ex :
  (∀ a ex', f a = Raise ex' → ex' = ex) →
  x ∈ col → f x = Raise ex → apply f col = Raise ex.
Proof.
  intros Honly. induction col as [|a col IH]; [by intros ?%elem_of_nil|].
  intros Hx Hfx. simpl. destruct (f a) as [b|ea] eqn:Hfa; simpl.
  - apply elem_of_cons in Hx as [->|Hx]; [congruence|]. by rewrite IH.
  - by rewrite (Honly a ea Hfa).
Qed.

(** X3: one event without the geometry key spoils the table: when the
    selected columns exist and every category cell is readable, an event
    that lacks ["geometry"] (a NaN cell, truthy and not subscriptable)
    makes normalisation raise TypeError; the event is not dropped. *)
Theorem missing_geometry_raises parse evs e :
  missing_columns evs = [] → Forall (λ e', is_Some (category_spec e')) evs →
  e ∈ evs → ev_geometry e = None →
  normalize parse evs = Raise TypeError.
Proof.
  intros Hm Hcat He Hg. unfold normalize, select_columns. rewrite Hm. simpl.
  unfold extract.
  destruct (apply_exists category_of (ev_categories <$> evs)) as [cs ->].
  { apply Forall_fmap. eapply Forall_impl; [exact Hcat|].
    intros e' [c Hc]. exists c. by apply category_of_spec. }
  simpl.
  rewrite (apply_Raise_only date_of (ev_geometry <$> evs) None TypeError); [done| | |done].
  - intros a ex' Ha. by apply date_of_Raise in Ha as [_ ->].
  - rewrite <-Hg. apply list_elem_of_fmap. eauto.
Qed.

Lemma missing_geometry_raises_witness :
  normalize parse_iso8601
    [event_A (Some "Fire");
     {| ev_id := Some "F"; ev_title := None; ev_categories := Some [];
        ev_geometry := None |}] = Raise TypeError.
Proof.
  apply (missing_geometry_raises parse_iso8601 _
           {| ev_id := Some "F"; ev_title := None; ev_categories := Some [];
              ev_geometry := None |}).
  - reflexivity.
  - repeat constructor; simpl; eauto.
  - right. by left.
  - reflexivity.
Defined.

(** X4: in every row of the normalised table the date is the parsed
    date string of the first geometry sample of the row's own event, and
    the year is the year of that date. *)
Theorem row_dates parse evs tbl r :
  normalize parse evs = Ok tbl → r ∈ tbl →
  ∃ d, first_sample (row_event r) ≫= g_date = Some d ∧
       parse d = Some (date r) ∧ year r = ts_year (date r).
Proof.
  intros (_ & rs & Hrs & ->)%normalize_rowwise Hr.
  apply list_elem_of_omap in Hr as (o & Ho & Heq). simpl in Heq. subst o.
  apply apply_Ok_Forall2 in Hrs.
  apply list_elem_of_lookup in Ho as [i Hi].
  destruct (Forall2_lookup_r _ _ _ _ _ Hrs Hi) as (e & He & Hrow).
  apply row_of_Some in Hrow
    as (c & g & rest & d & lon & lat & more & t & Hc & Hg & Hd & Hco & Ht & ->).
  exists d. simpl. unfold first_sample. rewrite Hg. simpl. by rewrite Hd.
Qed.

Lemma row_dates_witness :
  ∃ d, first_sample (row_event (row_A (Some "Fire"))) ≫= g_date = Some d ∧
       parse_iso8601 d = Some (date (row_A (Some "Fire"))) ∧
       year (row_A (Some "Fire")) = ts_year (date (row_A (Some "Fire"))).
Proof.
  apply (row_dates parse_iso8601 [event_A (Some "Fire"); event_B None]
           [row_A (Some "Fire")]).
  - reflexivity.
  - by left.
Defined.

(** ** Only the first geometry sample is read *)

Lemma row_of_first_only parse e :
  row_of parse (first_only e) =
  match row_of parse e with
  | Ok r => Ok (on_event first_only <$> r)
  | Raise ex => Raise ex
  end.
Proof.
  unfold row_of, extract_row, latitude_of, longitude_of. simpl.
  destruct (category_of (ev_categories e)) as [c|]; simpl; [|done].
  destruct (ev_geometry e) as [[|g rest]|]; [done| |done].
  cbn [fmap option_fmap option_map take]. rewrite !coordinate_of_sample. simpl.
  unfold finish, notna. simpl.
  destruct (get (g_coordinates g) [] !! 1%nat), (get (g_coordinates g) [] !! 0%nat),
    (g_date g) as [d|]; simpl; try done.
  by destruct (parse d).
Qed.

Lemma apply_fmap_Ok {A A' B B' : Type} (f : A → result B) (f' : A' → result B')
    (g : A → A') (h : B → B') col ys :
  (∀ x y, f x = Ok y → f' (g x) = Ok (h y)) →
  apply f col = Ok ys → apply f' (g <$> col) = Ok (h <$> ys).
Proof.
  intros Hfg Hys. apply apply_Ok_Forall2, Forall2_fmap.
  apply apply_Ok_Forall2 in Hys. eapply Forall2_impl; [exact Hys|]. done.
Qed.

(** X5: samples after the first are never read: a table that normalises
    still normalises, to the same rows, when every geometry list is cut
    after its first sample. *)
Theorem first_sample_only parse evs tbl :
  normalize parse evs = Ok tbl →
  normalize parse (first_only <$> evs) = Ok (on_event first_only <$> tbl).
Proof.
  intros (Hm & rs & Hrs & ->)%normalize_rowwise. apply normalize_rowwise. split.
  - apply missing_columns_nil in Hm as (Hid & Ht & Hc & Hg).
    apply missing_columns_nil. unfold has_column in *.
    rewrite !existsb_exists in *.
    destruct Hid as (e1 & ? & ?), Ht as (e2 & ? & ?), Hc as (e3 & ? & ?),
      Hg as (e4 & Hin4 & Hs4).
    split_and!; [exists (first_only e1) | exists (first_only e2)
                 | exists (first_only e3) | exists (first_only e4)];
      (split; [apply in_map; done|]); try done.
    apply bool_decide_eq_true in Hs4 as [geoms Hgeoms].
    apply bool_decide_eq_true. simpl. rewrite Hgeoms. by eexists.
  - exists (fmap (M := option) (on_event first_only) <$> rs). split.
    + eapply apply_fmap_Ok; [|exact Hrs]. intros e r Hr.
      by rewrite row_of_first_only, Hr.
    + clear Hrs. induction rs as [|[r|] rs IH]; [done| |done].
      cbn [fmap list_fmap omap list_omap option_fmap option_map id].
      f_equal. exact IH.
Qed.

Lemma first_sample_only_witness :
  let later := sample "1999-01-01T00:00:00Z" [1 # 1; 2 # 1]%Q in
  let e := {| ev_id := Some "A"; ev_title := Some "Fire";
              ev_categories := Some [ {| cat_title := Some "Wildfires" |} ];
              ev_geometry := Some [ sample "2020-05-01T00:00:00Z" [10 # 1; 20 # 1]%Q;
                                    later ] |} in
  normalize parse_iso8601 (first_only <$> [e]) =
  Ok (on_event first_only <$>
        [ {| row_event := e; category := "Wildfires"; date := date (row_A None);
             latitude := (20 # 1)%Q; longitude := (10 # 1)%Q; year := 2020 |} ]).
Proof.
  intros later e. apply (first_sample_only parse_iso8601 [e]). reflexivity.
Defined.

(** ** The default selection *)

Lemma elem_of_available_years df y :
  y ∈ available_years df ↔ ∃ r, r ∈ df ∧ year r = y.
Proof.
  unfold available_years.
  rewrite merge_sort_Permutation, elem_of_unique, list_elem_of_fmap. naive_solver.
Qed.

Lemma elem_of_all_categories df c :
  c ∈ all_categories df ↔ ∃ r, r ∈ df ∧ category r = c.
Proof.
  unfold all_categories.
  rewrite merge_sort_Permutation, elem_of_unique, list_elem_of_fmap. naive_solver.
Qed.

Lemma filter_ext_in {A : Type} (P1 P2 : A → Prop)
    `{!∀ x, Decision (P1 x), !∀ x, Decision (P2 x)} (l : list A) :
  (∀ x, x ∈ l → P1 x ↔ P2 x) → filter P1 l = filter P2 l.
Proof.
  induction l as [|a l IH]; intros Hiff; [done|].
  rewrite !filter_cons, IH by (intros x Hx; apply Hiff; by right).
  apply decide_ext, Hiff. by left.
Qed.

Lemma available_years_sorted df : StronglySorted Z.ge (available_years df).
Proof. apply StronglySorted_merge_sort; apply _. Qed.

Lemma default_selection_filter df y :
  y ∈ available_years df →
  filtered_rows df {| selected_year := Some y; selected_categories := all_categories df |} =
  filter (λ r, year r = y) df.
Proof.
  intros _. rewrite filtered_rows_filter. apply filter_ext_in.
  intros r' Hr'. split; [by intros [? _]|]. intros Hy'. split; [done|].
  apply elem_of_all_categories. eauto.
Qed.

(** X6: with the default of the category control (every category
    selected) the filtered view is the set of all rows of the selected
    year, and for a year taken from the year options it is not empty: the
    no-match warning cannot appear before the user deselects a
    category. *)
Theorem default_selection_view df y :
  y ∈ available_years df →
  filtered_rows df {| selected_year := Some y; selected_categories := all_categories df |} =
    filter (λ r, year r = y) df ∧
  filtered_rows df {| selected_year := Some y; selected_categories := all_categories df |} ≠ [].
Proof.
  intros (r & Hr & Hy)%elem_of_available_years.
  assert (filtered_rows df {| selected_year := Some y;
                              selected_categories := all_categories df |} =
          filter (λ r, year r = y) df) as Heq.
  { apply default_selection_filter. apply elem_of_available_years. eauto. }
  split; [done|]. rewrite Heq. intros Hnil.
  assert (r ∈ filter (λ r, year r = y) df) as Hin by (by apply list_elem_of_filter).
  rewrite Hnil in Hin. by apply elem_of_nil in Hin.
Qed.

Lemma default_selection_view_witness :
  filtered_rows [row_A None]
    {| selected_year := Some 2020; selected_categories := all_categories [row_A None] |} =
    filter (λ r, year r = 2020) [row_A None] ∧
  filtered_rows [row_A None]
    {| selected_year := Some 2020; selected_categories := all_categories [row_A None] |} ≠ [].
Proof.
  apply (default_selection_view [row_A None] 2020).
  apply elem_of_available_years. exists (row_A None). split; [by left | reflexivity].
Defined.

(** X7: the year option that the select box shows first, its default, is
    the most recent year of the table: no row has a later year. *)
Theorem first_year_option_is_latest df r :
  r ∈ df → ∃ y, head (available_years df) = Some y ∧ year r ≤ y.
Proof.
  intros Hr.
  assert (year r ∈ available_years df) as Hin
    by (apply elem_of_available_years; eauto).
  pose proof (available_years_sorted df) as Hsorted.
  destruct (available_years df) as [|y ys]; [by apply elem_of_nil in Hin|].
  exists y. split; [done|].
  apply elem_of_cons in Hin as [->|Hin]; [lia|].
  apply StronglySorted_inv in Hsorted as [_ Hall].
  rewrite Forall_forall in Hall. specialize (Hall _ Hin). lia.
Qed.

Lemma first_year_option_is_latest_witness :
  ∃ y, head (available_years [row_A None]) = Some y ∧ year (row_A None) ≤ y.
Proof. apply (first_year_option_is_latest [row_A None] (row_A None)). by left. Defined.

(** ** The views of the years partition the table *)

Lemma concat_filter_nil {A B : Type} (P : B → A → Prop) `{!∀ y x, Decision (P y x)}
    (ys : list B) :
  concat ((λ y, filter (P y) []) <$> ys) = [].
Proof. induction ys as [|y ys IH]; [done|]. simpl. exact IH. Qed.

Lemma concat_year_views_cons r df ys :
  NoDup ys → year r ∈ ys →
  concat ((λ y, filter (λ r', year r' = y) (r :: df)) <$> ys) ≡ₚ
  r :: concat ((λ y, filter (λ r', year r' = y) df) <$> ys).
Proof.
  induction 1 as [|y ys Hnotin Hnd IH]; [by intros ?%elem_of_nil|].
  intros Hin. cbn [fmap list_fmap concat]. rewrite filter_cons.
  destruct (decide (year r = y)) as [Heq|Hne].
  - assert ((λ y0, filter (λ r', year r' = y0) (r :: df)) <$> ys =
            (λ y0, filter (λ r', year r' = y0) df) <$> ys) as ->; [|done].
    apply list_fmap_ext. intros i y' Hy'.
    rewrite filter_cons, decide_False; [done|].
    intros Hy. apply Hnotin. rewrite <-Heq, Hy. by eapply list_elem_of_lookup_2.
  - apply elem_of_cons in Hin as [?|Hin]; [done|].
    rewrite (IH Hin). by rewrite Permutation_middle.
Qed.

(** X8: the views of the year options are disjoint and cover the table:
    going through every year option with every category selected shows
    each row of the table exactly once. *)
Theorem year_views_partition df :
  concat ((λ y, filtered_rows df {| selected_year := Some y;
                                    selected_categories := all_categories df |})
          <$> available_years df) ≡ₚ df.
Proof.
  assert (NoDup (available_years df)) as Hnd.
  { unfold available_years. rewrite merge_sort_Permutation. apply NoDup_unique_from. }
  assert (∀ r, r ∈ df → year r ∈ available_years df) as Hall.
  { intros r Hr. apply elem_of_available_years. eauto. }
  assert ((λ y, filtered_rows df {| selected_year := Some y;
                                    selected_categories := all_categories df |})
            <$> available_years df =
          (λ y, filter (λ r, year r = y) df) <$> available_years df) as ->.
  { apply list_fmap_ext. intros i y Hy.
    apply default_selection_filter. by eapply list_elem_of_lookup_2. }
  revert Hnd Hall. generalize (available_years df). intros ys Hnd.
  induction df as [|r df IH]; intros Hall.
  - by rewrite concat_filter_nil.
  - rewrite concat_year_views_cons; [|done|apply Hall; by left].
    f_equiv. apply IH. intros r' Hr'. apply Hall. by right.
Qed.

(** ** What the page shows for a selection *)





(** ** More on the cache of the fetcher *)

Lemma unique_from_ext {A : Type} `{EqDecision A} (seen1 seen2 col : list A) :
  (∀ x, x ∈ seen1 ↔ x ∈ seen2) → unique_from seen1 col = unique_from seen2 col.
Proof.
  revert seen1 seen2. induction col as [|a col IH]; intros seen1 seen2 Hiff; [done|].
  simpl. destruct (decide (a ∈ seen1)) as [Hin|Hnotin].
  - rewrite decide_True by (by apply Hiff). by apply IH.
  - rewrite decide_False by (by rewrite <-Hiff). f_equal. apply IH.
    intros x. rewrite !elem_of_cons, Hiff. done.
Qed.

(** Within a window of one time-to-live, the requests that a run of calls
    sends are those of the parameters that are not cached yet, one each,
    in the order of their first call. *)
Lemma calls_requests upstream t0 cs seen w :
  Forall (λ c, t0 ≤ c.2 < t0 + ttl) cs →
  (∀ d, d ∈ seen ↔ is_Some (cache w !! d)) →
  (∀ d expires hit, cache w !! d = Some (expires, hit) → t0 + ttl ≤ expires) →
  requests (calls upstream cs w).2 =
  requests w ++ (api_url <$> unique_from seen (fst <$> cs)).
Proof.
  intros Hcs. revert seen w.
  induction Hcs as [|[d t] cs Ht _ IH]; intros seen w Hseen Hexp.
  { simpl. by rewrite app_nil_r. }
  simpl in Ht. cbn [calls fmap list_fmap fst unique_from].
  destruct (decide (d ∈ seen)) as [Hin|Hnotin].
  - apply Hseen in Hin as [[expires hit] Hd].
    rewrite (get_eonet_data_hit upstream d t w expires hit Hd)
      by (specialize (Hexp _ _ _ Hd); lia).
    specialize (IH seen w Hseen Hexp).
    destruct (calls upstream cs w) as [rs w2]. exact IH.
  - assert (cache w !! d = None) as Hd.
    { apply eq_None_not_Some. by rewrite <-Hseen. }
    rewrite (get_eonet_data_miss upstream d t w Hd).
    match goal with
    | |- context [calls upstream cs ?w1] => specialize (IH (d :: seen) w1)
    end.
    destruct (calls upstream cs _) as [rs w2]. simpl in IH |- *.
    rewrite IH; [by rewrite <-app_assoc | |].
    + intros d'. rewrite elem_of_cons, lookup_insert_is_Some, Hseen.
      destruct (decide (d = d')); naive_solver.
    + intros d' expires hit. rewrite lookup_insert.
      case_decide; [intros [= <- _]; lia | apply Hexp].
Qed.

(** X13: starting with an empty cache, a run of calls whose times lie
    within one time-to-live sends exactly one request for each distinct
    parameter, in the order in which the parameters first occur; all the
    other calls are served from the cache. *)
Theorem one_request_per_parameter upstream t0 cs w :
  cache w = ∅ → Forall (λ c, t0 ≤ c.2 < t0 + 3600) cs →
  requests (calls upstream cs w).2 = requests w ++ (api_url <$> unique (fst <$> cs)).
Proof.
  intros Hempty Hcs. unfold unique. apply (calls_requests upstream t0); [done| |].
  - intros d. rewrite Hempty, lookup_empty, elem_of_nil.
    split; [done | by intros [? ?]].
  - intros d expires hit. by rewrite Hempty, lookup_empty.
Qed.

Lemma one_request_per_parameter_witness :
  let upstream := λ (_ : nat) (_ : string), RequestException "offline" in
  let w := {| requests := []; cache := ∅ |} in
  let cs := [(3650, 10); (30, 20); (3650, 3000); (30, 3609)] in
  requests (calls upstream cs w).2 = requests w ++ (api_url <$> unique (fst <$> cs)).
Proof.
  intros upstream w cs. apply (one_request_per_parameter upstream 10 cs w).
  - reflexivity.
  - repeat constructor; simpl; lia.
Defined.

Lemma get_eonet_data_refresh upstream days now w expires hit :
  cache w !! days = Some (expires, hit) → expires ≤ now →
  get_eonet_data upstream days now w =
  (get_eonet_data_body (upstream (length (requests w)) (api_url days)),
   {| requests := requests w ++ [api_url days];
      cache := <[days := (now + ttl,
                          get_eonet_data_body
                            (upstream (length (requests w)) (api_url days)))]> (cache w) |}).
Proof.
  intros Hc Hnow. unfold get_eonet_data. rewrite Hc.
  by rewrite bool_decide_eq_false_2 by lia.
Qed.

(** X14: an entry is not served once its time-to-live is over: a call
    3600 seconds or more after the call that filled the cache sends a
    second request and returns what upstream answers to that request. *)
Theorem refreshed_after_ttl upstream days t1 t2 w :
  cache w !! days = None → t1 + 3600 ≤ t2 →
  let first := get_eonet_data upstream days t1 w in
  let second := get_eonet_data upstream days t2 first.2 in
  requests second.2 = requests w ++ [api_url days; api_url days] ∧
  second.1 = get_eonet_data_body (upstream (S (length (requests w))) (api_url days)) ∧
  cache second.2 !! days = Some (t2 + 3600, second.1).
Proof.
  intros Hc Ht first second. unfold second, first.
  rewrite (get_eonet_data_miss upstream days t1 w Hc). cbn [snd].
  erewrite get_eonet_data_refresh;
    [|cbn [cache]; apply lookup_insert_eq | unfold ttl; lia].
  cbn [fst snd cache requests].
  rewrite length_app, Nat.add_1_r, <-app_assoc, lookup_insert_eq. done.
Qed.

Lemma refreshed_after_ttl_witness :
  let upstream := λ (n : nat) (_ : string),
    if decide (n = 0%nat) then RequestException "offline"
    else JsonBody (Some [event_B None]) in
  let w := {| requests := []; cache := ∅ |} in
  let first := get_eonet_data upstream 3650 0 w in
  let second := get_eonet_data upstream 3650 3600 first.2 in
  requests second.2 = requests w ++ [api_url 3650; api_url 3650] ∧
  second.1 = get_eonet_data_body (upstream (S (length (requests w))) (api_url 3650)) ∧
  cache second.2 !! 3650 = Some (3600 + 3600, second.1).
Proof.
  intros upstream w. apply (refreshed_after_ttl upstream 3650 0 3600 w).
  - reflexivity.
  - lia.
Defined.



(** ** The date that is shown *)

Lemma digit_inv c d :
  digit c = Some d → 0 ≤ d ≤ 9 ∧ c = ascii_of_N (Z.to_N (48 + d)).
Proof.
  unfold digit. destruct (_ && _) eqn:Hb; [|done]. intros [= <-].
  apply andb_true_iff in Hb as [H1 H2]. split; [lia|].
  replace (48 + (Z.of_N (N_of_ascii c) - 48)) with (Z.of_N (N_of_ascii c)) by lia.
  by rewrite N2Z.id, ascii_N_embedding.
Qed.

(** Printing a two-digit number gives back the digits it was read from. *)
Lemma number_two a b n :
  number 0 [a; b] = Some n → two_digits n = String a (String b "").
Proof.
  simpl. destruct (digit a) as [da|] eqn:Ha; simpl; [|done].
  destruct (digit b) as [db|] eqn:Hb; simpl; [|done]. intros [= <-].
  apply digit_inv in Ha as [? ->], Hb as [? ->]. unfold two_digits.
  replace ((10 * (10 * 0 + da) + db) / 10 mod 10) with da
    by (Z.to_euclidean_division_equations; lia).
  replace ((10 * (10 * 0 + da) + db) mod 10) with db
    by (Z.to_euclidean_division_equations; lia).
  done.
Qed.

Lemma number_four a b c d n :
  number 0 [a; b; c; d] = Some n →
  two_digits (n / 100) = String a (String b "") ∧
  two_digits n = String c (String d "").
Proof.
  simpl. destruct (digit a) as [da|] eqn:Ha; simpl; [|done].
  destruct (digit b) as [db|] eqn:Hb; simpl; [|done].
  destruct (digit c) as [dc|] eqn:Hc; simpl; [|done].
  destruct (digit d) as [dd|] eqn:Hd; simpl; [|done]. intros [= <-].
  apply digit_inv in Ha as [? ->], Hb as [? ->], Hc as [? ->], Hd as [? ->].
  unfold two_digits.
  set (n := 10 * (10 * (10 * (10 * 0 + da) + db) + dc) + dd).
  replace ((n / 100) / 10 mod 10) with da
    by (unfold n; Z.to_euclidean_division_equations; lia).
  replace ((n / 100) mod 10) with db
    by (unfold n; Z.to_euclidean_division_equations; lia).
  replace (n / 10 mod 10) with dc
    by (unfold n; Z.to_euclidean_division_equations; lia).
  replace (n mod 10) with dd
    by (unfold n; Z.to_euclidean_division_equations; lia).
  done.
Qed.

(** Follows the parser through a string: opens the string or the
    character that the parser inspects next. *)
Ltac step_shape :=
  cbn [list_ascii_of_string]; cbv beta iota;
  lazymatch goal with
  | |- None = Some _ → _ => let H := fresh in intros H; discriminate H
  | |- context [match list_ascii_of_string ?s with _ => _ end] =>
      is_var s; destruct s as [|? ?]
  | |- context [match ?c with Ascii _ _ _ _ _ _ _ _ => _ end] =>
      is_var c; destruct c as [[] [] [] [] [] [] [] []]
  end.

Lemma parse_shape s t :
  parse_iso8601 s = Some t →
  ∃ y1 y2 y3 y4 m1 m2 d1 d2 rest,
    s = String y1 (String y2 (String y3 (String y4 (String "-" (String m1 (String m2
          (String "-" (String d1 (String d2 rest))))))))) ∧
    number 0 [y1; y2; y3; y4] = Some (ts_year t) ∧
    number 0 [m1; m2] = Some (ts_month t) ∧
    number 0 [d1; d2] = Some (ts_day t).
Proof.
  unfold parse_iso8601. repeat step_shape.
  destruct (number 0 [a; a0; a1; a2]) as [y|] eqn:Hy; [|done].
  destruct (number 0 [a4; a5]) as [mo|] eqn:Hmo; [|done].
  destruct (number 0 [a7; a8]) as [d|] eqn:Hd; [|done].
  destruct (number 0 [a10; a11]) as [h|]; [|done].
  destruct (number 0 [a13; a14]) as [mi|]; [|done].
  destruct (number 0 [a16; a17]) as [sec|]; [|done].
  destruct (fraction_and_zone (list_ascii_of_string s)) as [off|]; [|done].
  cbn [mbind option_bind].
  destruct (_ && _); [|done]. intros [= <-]. cbn [ts_year ts_month ts_day].
  eauto 20.
Qed.

Lemma strftime_parse s t :
  parse_iso8601 s = Some t →
  strftime_Ymd t = String.substring 0 10 s ∧
  number 0 (list_ascii_of_string (String.substring 0 4 s)) = Some (ts_year t).
Proof.
  intros (y1 & y2 & y3 & y4 & m1 & m2 & d1 & d2 & rest & -> & Hy & Hm & Hd)%parse_shape.
  split; [|exact Hy]. unfold strftime_Ymd.
  apply number_four in Hy as [Hy1 Hy2]. apply number_two in Hm. apply number_two in Hd.
  rewrite Hy1, Hy2, Hm, Hd. by destruct rest.
Qed.

(** From the year 1000 on, the popup prints the date as the column
    does. *)
Lemma timestamp_strftime_four_digits t :
  1000 ≤ ts_year t → timestamp_strftime_Ymd t = strftime_Ymd t.
Proof.
  intros Hy. unfold timestamp_strftime_Ymd, strftime_Ymd, year_unpadded.
  rewrite !(proj2 (Z.ltb_ge _ _)) by lia.
  unfold two_digits. reflexivity.
Qed.

(** A year below 1000 is shown with four digits in the table and
    without the leading zero in the popup. *)
Example year_999_in_table_and_popup :
  let t := {| ts_year := 999; ts_month := 3; ts_day := 4; ts_hour := 0;
              ts_minute := 0; ts_second := 0; ts_utcoffset := 0 |} in
  strftime_Ymd t = "0999-03-04" ∧ timestamp_strftime_Ymd t = "999-03-04".
Proof. split; reflexivity. Qed.

(** X16: with ISO-8601 date strings, the date that the table shows for
    a row in its [date_str] column is the first ten characters of the
    date string of the row's first geometry sample, and the year that the
    filter uses is its first four digits: neither the time of day nor the
    offset of the string moves an event to another day or year.  The
    popup of the row's marker shows the same ten characters when the year
    is 1000 or later; below that it drops the leading zeros of the
    year. *)
Theorem shown_date_is_upstream_date evs tbl r :
  normalize parse_iso8601 evs = Ok tbl → r ∈ tbl →
  ∃ d, first_sample (row_event r) ≫= g_date = Some d ∧
       strftime_Ymd (date r) = String.substring 0 10 d ∧
       (1000 ≤ year r → mk_date (marker r) = String.substring 0 10 d) ∧
       number 0 (list_ascii_of_string (String.substring 0 4 d)) = Some (year r).
Proof.
  intros (_ & rs & Hrs & ->)%normalize_rowwise Hr.
  apply list_elem_of_omap in Hr as (o & Ho & Heq). simpl in Heq. subst o.
  apply apply_Ok_Forall2 in Hrs.
  apply list_elem_of_lookup in Ho as [i Hi].
  destruct (Forall2_lookup_r _ _ _ _ _ Hrs Hi) as (e & He & Hrow).
  apply row_of_Some in Hrow
    as (c & g & rest & d & lon & lat & more & t & Hc & Hg & Hd & Hco & Ht & ->).
  exists d. cbn [row_event date year marker mk_date].
  apply strftime_parse in Ht as [Hstr Hyear].
  split_and!; [|done| |done].
  - unfold first_sample. rewrite Hg. simpl. by rewrite Hd.
  - intros Hy. by rewrite timestamp_strftime_four_digits.
Qed.

Lemma shown_date_is_upstream_date_witness :
  let late := {| ev_id := Some "L"; ev_title := Some "Storm";
                 ev_categories := Some [];
                 ev_geometry := Some [ sample "2019-12-31T23:30:00-05:00"
                                          [10 # 1; 20 # 1]%Q ] |} in
  let r := {| row_event := late; category := "N/A";
              date := {| ts_year := 2019; ts_month := 12; ts_day := 31; ts_hour := 23;
                         ts_minute := 30; ts_second := 0; ts_utcoffset := -300 |};
              latitude := (20 # 1)%Q; longitude := (10 # 1)%Q; year := 2019 |} in
  ∃ d, first_sample (row_event r) ≫= g_date = Some d ∧
       strftime_Ymd (date r) = String.substring 0 10 d ∧
       (1000 ≤ year r → mk_date (marker r) = String.substring 0 10 d) ∧
       number 0 (list_ascii_of_string (String.substring 0 4 d)) = Some (year r).
Proof.
  intros late r. apply (shown_date_is_upstream_date [late] [r] r).
  - reflexivity.
  - by left.
Defined.
